(** * llvm-side-by-side: the statistics extractor and the comparison driver

    A shallow embedding of [main.go].  Go strings are byte sequences and
    are modelled by [string] (a sequence of 8-bit [ascii]); Go's [int] is
    a [Z] kept inside the range of its width; a [float64] is an IEEE 754
    binary64 value, modelled by [spec_float] at precision 53 and maximal
    exponent 1024.  Operating-system effects are threaded through an
    explicit world with a trace of the observable events. *)

From Stdlib Require Import ZArith List String Ascii Bool Lia DecimalString.
From Stdlib Require Import Floats.SpecFloat.
Import ListNotations.

Local Open Scope string_scope.
Local Open Scope Z_scope.

(* ================================================================== *)
(** * Bytes and strings *)

Module GoString.

Definition byte (n : Z) : ascii := ascii_of_N (Z.to_N n).

Definition TAB : ascii := byte 9.
Definition NL : ascii := byte 10.
Definition BACKSLASH : ascii := byte 92.

(** Go's interpreted string literals: the source writes [\t] and [\n]
    inside its format strings.  [go] reads those two escapes (and the
    escaped backslash), so that literals can be copied as they stand. *)
Fixpoint go (s : string) : string :=
  match s with
  | EmptyString => EmptyString
  | String c s1 =>
      if Ascii.eqb c BACKSLASH then
        match s1 with
        | String "t" s2 => String TAB (go s2)
        | String "n" s2 => String NL (go s2)
        | String c2 s2 => if Ascii.eqb c2 BACKSLASH then String BACKSLASH (go s2)
                          else String c (String c2 (go s2))
        | EmptyString => String c EmptyString
        end
      else String c (go s1)
  end.

Definition code (c : ascii) : Z := Z.of_N (N_of_ascii c).

Definition between (lo hi c : ascii) : bool :=
  (code lo <=? code c) && (code c <=? code hi).

Definition isDigit (c : ascii) : bool := between "0" "9" c.

(** [strings.HasPrefix] that also hands back the remainder. *)
Fixpoint stripPrefix (p s : string) : option string :=
  match p with
  | EmptyString => Some s
  | String a p1 =>
      match s with
      | EmptyString => None
      | String b s1 => if Ascii.eqb a b then stripPrefix p1 s1 else None
      end
  end.

(** [strings.Split(s, sep)] for a separator of one byte: the pieces
    between the separators, always at least one piece. *)
Fixpoint Split (s : string) (sep : ascii) : list string :=
  match s with
  | EmptyString => [EmptyString]
  | String c s1 =>
      if Ascii.eqb c sep then EmptyString :: Split s1 sep
      else match Split s1 sep with
           | piece :: rest => String c piece :: rest
           | [] => [String c EmptyString]
           end
  end.

(** The UTF-8 encodings of the code points with the Unicode property
    White_Space, the ones [unicode.IsSpace] accepts. *)
Definition spaceEncodings : list (list Z) :=
  [ [9]; [10]; [11]; [12]; [13]; [32];
    [194; 133]; [194; 160];
    [225; 154; 128]; [225; 160; 142];
    [226; 128; 128]; [226; 128; 129]; [226; 128; 130]; [226; 128; 131];
    [226; 128; 132]; [226; 128; 133]; [226; 128; 134]; [226; 128; 135];
    [226; 128; 136]; [226; 128; 137]; [226; 128; 138];
    [226; 128; 168]; [226; 128; 169]; [226; 128; 175];
    [226; 129; 159]; [227; 128; 128] ].

Definition spaces : list (list ascii) := map (map byte) spaceEncodings.

Fixpoint dropPrefix (p s : list ascii) : option (list ascii) :=
  match p with
  | [] => Some s
  | a :: p1 =>
      match s with
      | [] => None
      | b :: s1 => if Ascii.eqb a b then dropPrefix p1 s1 else None
      end
  end.

(** Width in bytes of the space rune that [s] starts with, [0] if it
    starts with none. *)
Definition leadingSpace (encs : list (list ascii)) (s : list ascii) : nat :=
  match find (fun e => match dropPrefix e s with Some _ => true | None => false end) encs with
  | Some e => List.length e
  | None => 0%nat
  end.

(** Strips space runes from the front; each step removes at least one
    byte, so the length of the input is fuel enough. *)
Fixpoint trimFront (fuel : nat) (encs : list (list ascii)) (s : list ascii) : list ascii :=
  match fuel with
  | O => s
  | S fuel1 =>
      match leadingSpace encs s with
      | O => s
      | w => trimFront fuel1 encs (skipn w s)
      end
  end.

(** [strings.TrimSpace]: leading, then trailing space runes removed.  A
    trailing rune is found by decoding backwards, which on the encodings
    above is stripping their reversals from the reversed string. *)
Definition TrimSpace (s : string) : string :=
  let l := list_ascii_of_string s in
  let l1 := trimFront (List.length l) spaces l in
  let r := rev l1 in
  string_of_list_ascii (rev (trimFront (List.length r) (map (@rev ascii) spaces) r)).

(** [ss[i]]: indexing past the end is a run-time panic, [None] here. *)
Definition index (ss : list string) (i : nat) : option string := nth_error ss i.

End GoString.

Import GoString.

(* ================================================================== *)
(** * Package regexp, for the syntax the three patterns use

    The library matches the runes of UTF-8 text and returns the
    leftmost match.  The literals and classes of the three patterns are
    ASCII, and an ASCII byte is never part of the encoding of another
    rune, so that matching byte by byte finds the same matches.  Which
    of several matches at one place a library prefers makes no
    difference here: these patterns have at most one match at a place
    ([matches_unique] below). *)

Module Regexp.

(** A bracket expression: ranges, possibly negated. *)
Record class : Type := Class { negated : bool; ranges : list (ascii * ascii) }.

Definition classMem (cl : class) (c : ascii) : bool :=
  xorb (negated cl) (existsb (fun r => between (fst r) (snd r) c) (ranges cl)).

(** The patterns are concatenations of literal text, of [cl+] and of a
    capturing group [(cl+)]. *)
Inductive node : Type :=
| Lit (s : string)
| Plus (cl : class)
| Cap (cl : class).

Definition Regexp : Type := list node.

(** One or more bytes of [cl], the longest run first, then the
    continuation [k] on what is left; gives the run and [k]'s result. *)
Fixpoint plus {R : Type} (cl : class) (k : string -> option R) (s : string)
  : option (string * R) :=
  match s with
  | EmptyString => None
  | String c s1 =>
      if classMem cl c then
        match plus cl k s1 with
        | Some (run, r) => Some (String c run, r)
        | None =>
            match k s1 with
            | Some r => Some (String c EmptyString, r)
            | None => None
            end
        end
      else None
  end.

(** A match of [re] that starts at the first byte of [s]: the matched
    text and the texts of the groups. *)
Fixpoint matchHere (re : Regexp) (s : string) : option (string * list string) :=
  match re with
  | [] => Some (EmptyString, [])
  | Lit l :: re1 =>
      match stripPrefix l s with
      | Some s1 =>
          match matchHere re1 s1 with
          | Some (w, caps) => Some (l ++ w, caps)
          | None => None
          end
      | None => None
      end
  | Plus cl :: re1 =>
      match plus cl (matchHere re1) s with
      | Some (run, (w, caps)) => Some (run ++ w, caps)
      | None => None
      end
  | Cap cl :: re1 =>
      match plus cl (matchHere re1) s with
      | Some (run, (w, caps)) => Some (run ++ w, run :: caps)
      | None => None
      end
  end.

(** The leftmost match: the pattern is not anchored. *)
Fixpoint search (re : Regexp) (s : string) : option (string * list string) :=
  match matchHere re s with
  | Some m => Some m
  | None =>
      match s with
      | EmptyString => None
      | String _ s1 => search re s1
      end
  end.

Definition MatchString (re : Regexp) (s : string) : bool :=
  match search re s with Some _ => true | None => false end.

(** The match followed by the groups, [nil] when there is no match. *)
Definition FindStringSubmatch (re : Regexp) (s : string) : list string :=
  match search re s with
  | Some (w, caps) => w :: caps
  | None => []
  end.

(** The pattern text of a [Regexp], to compare with the source. *)
Definition showRange (r : ascii * ascii) : string :=
  if Ascii.eqb (fst r) (snd r) then String (fst r) EmptyString
  else String (fst r) (String "-" (String (snd r) EmptyString)).

Definition showClass (cl : class) : string :=
  "[" ++ (if negated cl then "^" else EmptyString) ++
  concat EmptyString (map showRange (ranges cl)) ++ "]".

Fixpoint showLit (s : string) : string :=
  match s with
  | EmptyString => EmptyString
  | String c s1 =>
      if Ascii.eqb c "(" || Ascii.eqb c ")" then String BACKSLASH (String c (showLit s1))
      else String c (showLit s1)
  end.

Definition showNode (n : node) : string :=
  match n with
  | Lit s => showLit s
  | Plus cl => showClass cl ++ "+"
  | Cap cl => "(" ++ showClass cl ++ "+)"
  end.

Definition show (re : Regexp) : string := concat EmptyString (map showNode re).

End Regexp.

Import Regexp.

(* ================================================================== *)
(** * Package strconv *)

Module Strconv.

Inductive Errno : Type := EINVAL | ERANGE.

(** [*strconv.NumError]: the text that failed and why. *)
Record NumError : Type := mkNumError { Num : string; Err : Errno }.

(** The width of [int] is the compiler's choice: 32 bits in the
    compilers of the time of this source, 64 bits on 64-bit targets
    later.  Nothing below depends on which. *)
Inductive intWidth : Type := Int32 | Int64.

Definition IntSize (w : intWidth) : Z :=
  match w with Int32 => 32 | Int64 => 64 end.

Definition digitVal (c : ascii) : Z := code c - code "0".

(** The value of a run of decimal digits, [None] at a byte that is not
    a digit. *)
Fixpoint digitsValue (acc : Z) (s : string) : option Z :=
  match s with
  | EmptyString => Some acc
  | String c s1 =>
      if isDigit c then digitsValue (acc * 10 + digitVal c) s1 else None
  end.

(** [Atoui64]: [EINVAL] on the empty string or a bad digit, [ERANGE]
    with the largest value when the number does not fit 64 bits. *)
Definition Atoui64 (s : string) : Z * option NumError :=
  match s with
  | EmptyString => (0, Some (mkNumError s EINVAL))
  | _ =>
      match digitsValue 0 s with
      | None => (0, Some (mkNumError s EINVAL))
      | Some n =>
          if n <? 2 ^ 64 then (n, None)
          else (2 ^ 64 - 1, Some (mkNumError s ERANGE))
      end
  end.

(** [Atoi64]: an optional sign, then as [Atoui64]; out of range gives
    the nearest bound and [ERANGE]. *)
Definition Atoi64 (s0 : string) : Z * option NumError :=
  match s0 with
  | EmptyString => (0, Some (mkNumError s0 EINVAL))
  | String c rest =>
      let neg := Ascii.eqb c "-" in
      let s := if Ascii.eqb c "+" || neg then rest else s0 in
      match Atoui64 s with
      | (_, Some (mkNumError _ EINVAL)) => (0, Some (mkNumError s0 EINVAL))
      | (un, _) =>
          if negb neg && (2 ^ 63 <=? un) then (2 ^ 63 - 1, Some (mkNumError s0 ERANGE))
          else if neg && (2 ^ 63 <? un) then (- 2 ^ 63, Some (mkNumError s0 ERANGE))
          else (if neg then - un else un, None)
      end
  end.

(** [Atoi]: as [Atoi64], with the range of [int]. *)
Definition Atoi (w : intWidth) (s : string) : Z * option NumError :=
  match Atoi64 s with
  | (_, Some (mkNumError _ EINVAL)) => (0, Some (mkNumError s EINVAL))
  | (i1, e1) =>
      let bound := 2 ^ (IntSize w - 1) in
      if i1 <? - bound then (- bound, Some (mkNumError s ERANGE))
      else if bound <=? i1 then (bound - 1, Some (mkNumError s ERANGE))
      else match e1 with
           | Some _ => (i1, Some (mkNumError s ERANGE))
           | None => (i1, None)
           end
  end.

(** ** Floating point *)

Definition float64 : Type := spec_float.
Definition prec : Z := 53.
Definition emax : Z := 1024.

Definition zero64 : float64 := S754_zero false.

(** The digits of the mantissa with at most one point: the digits read
    as an integer, how many of them follow the point, whether a digit
    was seen, and the unread rest.  A second point is a syntax error. *)
Fixpoint readDigits (s : string) (m frac : Z) (sawdot sawdigits : bool)
  : option (Z * Z * bool * string) :=
  match s with
  | EmptyString => Some (m, frac, sawdigits, s)
  | String c s1 =>
      if Ascii.eqb c "." then
        if sawdot then None else readDigits s1 m frac true sawdigits
      else if isDigit c then
        readDigits s1 (m * 10 + digitVal c) (if sawdot then frac + 1 else frac) sawdot true
      else Some (m, frac, sawdigits, s)
  end.

(** The optional exponent, which must use up the rest of the text. *)
Definition readExponent (s : string) : option Z :=
  match s with
  | EmptyString => Some 0
  | String c s1 =>
      if Ascii.eqb c "e" || Ascii.eqb c "E" then
        let '(esign, s2) :=
          match s1 with
          | String "+" r => (1, r)
          | String "-" r => (-1, r)
          | _ => (1, s1)
          end in
        match s2 with
        | EmptyString => None
        | _ => option_map (Z.mul esign) (digitsValue 0 s2)
        end
      else None
  end.

(** A decimal number [(-1)^neg * mant * 10^exp10]. *)
Record decimal : Type := mkDecimal { neg : bool; mant : Z; exp10 : Z }.

Definition readFloat (s : string) : option decimal :=
  match s with
  | EmptyString => None
  | String c rest =>
      let sign := Ascii.eqb c "-" in
      let s1 := if Ascii.eqb c "+" || sign then rest else s in
      match readDigits s1 0 0 false false with
      | Some (m, frac, true, s2) =>
          option_map (fun e => mkDecimal sign m (e - frac)) (readExponent s2)
      | _ => None
      end
  end.

(** The binary64 value nearest to a decimal, ties to even; beyond the
    largest finite value the result is an infinity. *)
Definition decimalToFloat64 (d : decimal) : float64 :=
  match mant d with
  | Zpos m =>
      if 0 <=? exp10 d then
        binary_normalize prec emax ((if neg d then Zneg m else Zpos m) * 10 ^ exp10 d) 0 false
      else
        SFdiv prec emax (S754_finite (neg d) m 0)
                        (S754_finite false (Z.to_pos (10 ^ (- exp10 d))) 0)
  | _ => S754_zero (neg d)
  end.

Definition lower (c : ascii) : ascii :=
  if between "A" "Z" c then ascii_of_N (N_of_ascii c + 32) else c.

Fixpoint equalIgnoreCase (s t : string) : bool :=
  match s, t with
  | EmptyString, EmptyString => true
  | String a s1, String b t1 => Ascii.eqb (lower a) (lower b) && equalIgnoreCase s1 t1
  | _, _ => false
  end.

Definition special (s : string) : option float64 :=
  if equalIgnoreCase s "nan" then Some S754_nan
  else if equalIgnoreCase s "-inf" || equalIgnoreCase s "-infinity" then Some (S754_infinity true)
  else if equalIgnoreCase s "+inf" || equalIgnoreCase s "+infinity"
          || equalIgnoreCase s "inf" || equalIgnoreCase s "infinity" then Some (S754_infinity false)
  else None.

(** [Atof64]: [0] and [EINVAL] on text that is not a number, an
    infinity and [ERANGE] on a number out of range. *)
Definition Atof64 (s : string) : float64 * option NumError :=
  match special s with
  | Some f => (f, None)
  | None =>
      match readFloat s with
      | None => (zero64, Some (mkNumError s EINVAL))
      | Some d =>
          let f := decimalToFloat64 d in
          match f with
          | S754_infinity _ => (f, Some (mkNumError s ERANGE))
          | _ => (f, None)
          end
      end
  end.

End Strconv.

Import Strconv.

(* ================================================================== *)
(** * The statistics extractor *)

(** [regexp.MustCompile] of the three pattern texts. *)
Definition digit : class := Class false [("0", "9")]%char.
Definition digitOrDot : class := Class false [("0", "9"); (".", ".")]%char.
Definition notN : class := Class true [("N", "N")]%char.

Definition stackSpaceRegexp : Regexp :=
  [Cap digit; Lit " pei"; Plus notN; Lit "Number of bytes used for stack in all functions"].

Definition asmInstrsRegexp : Regexp :=
  [Cap digit; Lit " asm-printer"; Plus notN; Lit "Number of machine instrs printed"].

Definition execTimeRegexp : Regexp :=
  [Lit "Total Execution Time: "; Cap digitOrDot; Lit " seconds ("; Cap digitOrDot;
   Lit " wall clock)"].

Record Stats : Type := mkStats {
  AsmInstrs : Z;
  StackSpace : Z;
  Seconds : float64;
  WallSeconds : float64
}.

(** [new(Stats)] *)
Definition newStats : Stats := mkStats 0 0 zero64 zero64.

(** An operand of a formatted print. *)
Inductive arg : Type :=
| AString (s : string)
| AInt (i : Z)
| AFloat (f : float64)
| ANumError (e : NumError)
| AError (msg : string).

(** One call of [log.Printf]: the format and its operands. *)
Record LogEntry : Type := mkLog { logFormat : string; logArgs : list arg }.

(** ** The body of the loop over the lines

    The body reads and writes the record under construction, appends to
    the log, may [continue] with the next line, and indexes slices, which
    can panic. *)

Definition LoopState : Type := Stats * list LogEntry.

Inductive outcome (A : Type) : Type :=
| Next (a : A) (st : LoopState)
| Continue (st : LoopState)
| Panic.

Arguments Next {A} a st.
Arguments Continue {A} st.
Arguments Panic {A}.

Definition Body (A : Type) : Type := LoopState -> outcome A.

Definition ret {A : Type} (a : A) : Body A := fun st => Next a st.

Definition bind {A B : Type} (m : Body A) (f : A -> Body B) : Body B :=
  fun st =>
    match m st with
    | Next a st1 => f a st1
    | Continue st1 => Continue st1
    | Panic => Panic
    end.

Declare Scope body_scope.
Delimit Scope body_scope with body.
Notation "x <- m ;; k" := (bind m (fun x => k))
  (at level 61, m at next level, right associativity) : body_scope.
Notation "m ;; k" := (bind m (fun _ => k))
  (at level 61, right associativity) : body_scope.

Definition continue {A : Type} : Body A := fun st => Continue st.

Definition logPrintf (format : string) (args : list arg) : Body unit :=
  fun st => Next tt (fst st, (snd st ++ [mkLog format args])%list).

Definition at_ (ss : list string) (i : nat) : Body string :=
  fun st => match index ss i with Some s => Next s st | None => Panic end.

Definition update (f : Stats -> Stats) : Body unit :=
  fun st => Next tt (f (fst st), snd st).

Definition setAsmInstrs (v : Z) (r : Stats) : Stats :=
  mkStats v (StackSpace r) (Seconds r) (WallSeconds r).
Definition setStackSpace (v : Z) (r : Stats) : Stats :=
  mkStats (AsmInstrs r) v (Seconds r) (WallSeconds r).
Definition setSeconds (v : float64) (r : Stats) : Stats :=
  mkStats (AsmInstrs r) (StackSpace r) v (WallSeconds r).
Definition setWallSeconds (v : float64) (r : Stats) : Stats :=
  mkStats (AsmInstrs r) (StackSpace r) (Seconds r) v.

(** [if cond { ... }] *)
Definition when (cond : bool) (m : Body unit) : Body unit :=
  if cond then m else ret tt.

(** [if err != nil { ... }] *)
Definition whenErr (err : option NumError) (m : NumError -> Body unit) : Body unit :=
  match err with Some e => m e | None => ret tt end.

Section Extractor.

Local Open Scope body_scope.

(** The width of [int], which [strconv.Atoi] depends on. *)
Variable w : intWidth.

Definition asmInstrsBlock (line : string) : Body unit :=
  when (MatchString asmInstrsRegexp line) (
    let ss := FindStringSubmatch asmInstrsRegexp line in
    when (negb (Nat.eqb (List.length ss) 2)) (
      logPrintf "parseTestOutput: could not parse AsmInstrs statistic for line=[%s]"
                [AString line] ;;
      continue) ;;
    ss1 <- at_ ss 1 ;;
    let '(v, err) := Atoi w ss1 in
    update (setAsmInstrs v) ;;
    whenErr err (fun e =>
      logPrintf ("parseTestOutput: could not parse int value of AsmInstrs statistic " ++
                 "for line=[%s], matched substring=[%s], err: %v")
                [AString line; AString ss1; ANumError e] ;;
      continue)).

Definition stackSpaceBlock (line : string) : Body unit :=
  when (MatchString stackSpaceRegexp line) (
    let ss := FindStringSubmatch stackSpaceRegexp line in
    when (negb (Nat.eqb (List.length ss) 2)) (
      logPrintf "parseTestOutput: could not parse StackSpace statistic for line=[%s]"
                [AString line] ;;
      continue) ;;
    ss1 <- at_ ss 1 ;;
    let '(v, err) := Atoi w ss1 in
    update (setStackSpace v) ;;
    whenErr err (fun e =>
      logPrintf ("parseTestOutput: could not parse int value of StackSpace statistic " ++
                 "for line=[%s], matched substring=[%s], err: %v")
                [AString line; AString ss1; ANumError e] ;;
      continue)).

Definition execTimeBlock (line : string) : Body unit :=
  when (MatchString execTimeRegexp line) (
    let ss := FindStringSubmatch execTimeRegexp line in
    when (negb (Nat.eqb (List.length ss) 3)) (
      logPrintf "parseTestOutput: could not parse ExecTime statistic for line=[%s]"
                [AString line] ;;
      continue) ;;
    ss1 <- at_ ss 1 ;;
    let '(v1, err1) := Atof64 ss1 in
    update (setSeconds v1) ;;
    whenErr err1 (fun e =>
      logPrintf ("parseTestOutput: could not parse int value of Seconds statistic " ++
                 "for line=[%s], matched substring=[%s], err: %v")
                [AString line; AString ss1; ANumError e] ;;
      continue) ;;
    ss2 <- at_ ss 2 ;;
    let '(v2, err2) := Atof64 ss2 in
    update (setWallSeconds v2) ;;
    whenErr err2 (fun e =>
      logPrintf ("parseTestOutput: could not parse int value of WallSeconds statistic " ++
                 "for line=[%s], matched substring=[%s], err: %v")
                [AString line; AString ss2; ANumError e] ;;
      continue)).

Definition loopBody (line0 : string) : Body unit :=
  let line := TrimSpace line0 in
  asmInstrsBlock line ;;
  stackSpaceBlock line ;;
  execTimeBlock line.

(** [for _, line := range lines { ... }]: [None] when the body panics. *)
Fixpoint forLines (lines : list string) (st : LoopState) : option LoopState :=
  match lines with
  | [] => Some st
  | line :: rest =>
      match loopBody line st with
      | Next _ st1 => forLines rest st1
      | Continue st1 => forLines rest st1
      | Panic => None
      end
  end.

(** The result of the extractor: the record and what it logged, or
    [None] for a panic. *)
Definition parseTestOutput (stderr : string) : option (Stats * list LogEntry) :=
  forLines (Split stderr NL) (newStats, []).

End Extractor.

(* ================================================================== *)
(** * The operating system and the libraries the driver prints with *)

Inductive Writer : Type := Stdout | Stderr.

(** [*exec.Cmd]: the executable, its arguments and what it reads. *)
Record Cmd : Type := mkCmd { Path : string; Args : list string; Stdin : option string }.

(** The calls the program makes to the system. *)
Inductive SysCall : Type :=
| ReadFile (filename : string)
| StderrPipe (c : Cmd)
| StdoutPipe (c : Cmd)
| Start (c : Cmd)
| ReadAllOut (c : Cmd)
| ReadAllErr (c : Cmd)
| Wait (c : Cmd).

(** What can be observed of a run, in order. *)
Inductive Event : Type :=
| Write (out : Writer) (text : string)
| Log (text : string)
| PrintDefaults
| Call (c : SysCall).

(** An answer of the system: the bytes read (empty for the calls that
    return none), or the text of an error. *)
Definition Response : Type := (string + string)%type.

(** The environment of a run: the system, which answers each call from
    its state, and the library functions whose results are only printed:
    [path.Join], [path.Base], the [%v] form of a [float64] and of a
    [*NumError], and the width of [int]. *)
Class Env : Type := {
  World : Type;
  os : SysCall -> World -> Response * World;
  pathJoin : string -> string -> string;
  pathBase : string -> string;
  FormatFloat : float64 -> string;
  NumErrorString : NumError -> string;
  width : intWidth
}.

Section Driver.

Context {E : Env}.

(** ** Package fmt *)

Definition decimalString (i : Z) : string :=
  DecimalString.NilEmpty.string_of_int (Z.to_int i).

Definition badVerb (v : ascii) : string := "%!" ++ String v "(BAD)".

Definition isVerb (v : ascii) (vs : string) : bool :=
  existsb (Ascii.eqb v) (list_ascii_of_string vs).

Definition formatArg (v : ascii) (a : arg) : string :=
  match a with
  | AString s => if isVerb v "sv" then s else badVerb v
  | AInt i => if isVerb v "dv" then decimalString i else badVerb v
  | AFloat f => if isVerb v "v" then FormatFloat f else badVerb v
  | ANumError e => if isVerb v "sv" then NumErrorString e else badVerb v
  | AError msg => if isVerb v "sv" then msg else badVerb v
  end.

(** [fmt.Sprintf] for the verbs of this program; operands beyond the
    verbs, which no call here has, are dropped. *)
Fixpoint Sprintf (format : string) (args : list arg) : string :=
  match format with
  | EmptyString => EmptyString
  | String c rest =>
      if Ascii.eqb c "%" then
        match rest with
        | String v rest1 =>
            match args with
            | a :: args1 => formatArg v a ++ Sprintf rest1 args1
            | [] => "%!" ++ String v "(MISSING)" ++ Sprintf rest1 []
            end
        | EmptyString => "%!(NOVERB)"
        end
      else String c (Sprintf rest args)
  end.

(** ** The state of a run and the monad of the driver *)

Record Sys : Type := mkSys { world : World; trace : list Event }.

Inductive result (A : Type) : Type :=
| Ok (a : A) (s : Sys)
| Exited (status : Z) (s : Sys)
| Crashed (s : Sys).

Arguments Ok {A} a s.
Arguments Exited {A} status s.
Arguments Crashed {A} s.

Definition IO (A : Type) : Type := Sys -> result A.

Definition pure {A : Type} (a : A) : IO A := fun s => Ok a s.

Definition andThen {A B : Type} (m : IO A) (f : A -> IO B) : IO B :=
  fun s =>
    match m s with
    | Ok a s1 => f a s1
    | Exited status s1 => Exited status s1
    | Crashed s1 => Crashed s1
    end.

Declare Scope io_scope.
Delimit Scope io_scope with io.
Notation "x <- m ;; k" := (andThen m (fun x => k))
  (at level 61, m at next level, right associativity) : io_scope.
Notation "' p <- m ;; k" := (andThen m (fun x => match x with p => k end))
  (at level 61, p pattern, m at next level, right associativity) : io_scope.
Notation "m ;; k" := (andThen m (fun _ => k))
  (at level 61, right associativity) : io_scope.

Local Open Scope io_scope.

Definition emit (e : Event) : IO unit :=
  fun s => Ok tt (mkSys (world s) (trace s ++ [e])%list).

Definition emitAll (es : list Event) : IO unit :=
  fun s => Ok tt (mkSys (world s) (trace s ++ es)%list).

(** A call to the system: noted in the trace, answered by [os]. *)
Definition sys (c : SysCall) : IO Response :=
  fun s =>
    let '(r, w1) := os c (world s) in
    Ok r (mkSys w1 (trace s ++ [Call c])%list).

Definition os_Exit {A : Type} (status : Z) : IO A := fun s => Exited status s.

Definition panic {A : Type} : IO A := fun s => Crashed s.

Definition Printf (format : string) (args : list arg) : IO unit :=
  emit (Write Stdout (Sprintf format args)).

Definition Fprintf (out : Writer) (format : string) (args : list arg) : IO unit :=
  emit (Write out (Sprintf format args)).

(** [fmt.Errorf]: an error is its text. *)
Definition Errorf (format : string) (args : list arg) : string := Sprintf format args.

(** The standard logger writes each entry to standard error, behind a
    time stamp; an entry of the trace is the text after the stamp. *)
Definition log_Printf (format : string) (args : list arg) : IO unit :=
  emit (Log (Sprintf format args)).

Definition log_Fatalf {A : Type} (format : string) (args : list arg) : IO A :=
  log_Printf format args ;; os_Exit 1.

Definition flag_PrintDefaults : IO unit := emit PrintDefaults.

(** ** The program *)

Definition exec_Command (name : string) (args : list string) : Cmd :=
  mkCmd name args None.

Definition runTest (toolchain test : string) : IO (string * option string) :=
  let cmd := exec_Command (pathJoin toolchain "bin/llc")
               ["-O0"; "-stats"; "--time-passes"; "-relocation-model=pic"; "-O0";
                "-asm-verbose=false"] in
  r <- sys (ReadFile test) ;;
  match r with
  | inr err => pure (EmptyString, Some err)
  | inl data =>
      let cmd := mkCmd (Path cmd) (Args cmd) (Some data) in
      r <- sys (StderrPipe cmd) ;;
      match r with
      | inr err => pure (EmptyString, Some err)
      | inl _ =>
          r <- sys (StdoutPipe cmd) ;;
          match r with
          | inr err => pure (EmptyString, Some err)
          | inl _ =>
              r <- sys (Start cmd) ;;
              match r with
              | inr err => pure (EmptyString, Some (Errorf "cmd.Start: %v" [AError err]))
              | inl _ =>
                  r <- sys (ReadAllOut cmd) ;;
                  match r with
                  | inr err =>
                      pure (EmptyString,
                            Some (Errorf "ioutil.ReadAll(outPipe): %v" [AError err]))
                  | inl _ =>
                      r <- sys (ReadAllErr cmd) ;;
                      match r with
                      | inr err =>
                          pure (EmptyString,
                                Some (Errorf "ioutil.ReadAll(errPipe): %v" [AError err]))
                      | inl stderrData =>
                          r <- sys (Wait cmd) ;;
                          match r with
                          | inr err =>
                              pure (EmptyString, Some (Errorf "cmd.Wait: %v" [AError err]))
                          | inl _ => pure (stderrData, None)
                          end
                      end
                  end
              end
          end
      end
  end.

(** The extractor inside the driver: its log entries go to the logger,
    a panic ends the program. *)
Definition parse (stderr : string) : IO Stats :=
  match parseTestOutput width stderr with
  | Some (stats, logs) =>
      emitAll (map (fun l => Log (Sprintf (logFormat l) (logArgs l))) logs) ;;
      pure stats
  | None => panic
  end.

(** A [*Stats] is [None] when it is [nil]. *)
Definition runAndParse (toolchain test : string) : IO (option Stats * option string) :=
  ' (stderr, err) <- runTest toolchain test ;;
  match err with
  | Some e => pure (None, Some e)
  | None =>
      stats <- parse stderr ;;
      pure (Some stats, None)
  end.

Definition runBoth (t1 t2 test : string)
  : IO ((option Stats * option Stats) * option string) :=
  ' (stats0, err) <- runAndParse t1 test ;;
  match err with
  | Some e => log_Fatalf "runTest(t1=%s, test=%s): %v" [AString t1; AString test; AError e]
  | None => pure tt
  end ;;
  ' (stats1, err) <- runAndParse t2 test ;;
  match err with
  | Some e => log_Fatalf "runTest(t2=%s, test=%s): %v" [AString t2; AString test; AError e]
  | None => pure tt
  end ;;
  pure ((stats0, stats1), err).

(** [stats[i].Field]: following a [nil] pointer panics. *)
Definition deref (p : option Stats) : IO Stats :=
  match p with Some st => pure st | None => panic end.

Definition printStats (test : string) (stats : option Stats * option Stats)
  : IO (option string) :=
  s0 <- deref (fst stats) ;;
  s1 <- deref (snd stats) ;;
  Printf (go "%s\t%d\t%d\t%v\t%v\t%d\t%d\t%v\t%v\n")
    [AString (pathBase test);
     AInt (AsmInstrs s0); AInt (StackSpace s0); AFloat (Seconds s0); AFloat (WallSeconds s0);
     AInt (AsmInstrs s1); AInt (StackSpace s1); AFloat (Seconds s1); AFloat (WallSeconds s1)] ;;
  pure None.

Definition checkArg (name : string) (cond : bool) : IO unit :=
  if negb cond then
    Fprintf Stderr (go "%s is not specified\n") [AString name] ;;
    flag_PrintDefaults ;;
    os_Exit 1
  else pure tt.

(** The values of the three flags once [flag.Parse] has read the
    command line; a flag that was not given has its default, the empty
    string. *)
Record Flags : Type := mkFlags { t1 : string; t2 : string; test : string }.

Definition nonEmpty (s : string) : bool := negb (String.eqb s EmptyString).

(** [func main()] once [flag.Parse()], its first statement, has
    returned with the flags [f]: the statements from the first
    [checkArg] on.  The whole of it, with the reading of the command
    line, is [program] below. *)
Definition main (f : Flags) : IO unit :=
  checkArg "-test" (nonEmpty (test f)) ;;
  checkArg "-t1" (nonEmpty (t1 f)) ;;
  checkArg "-t2" (nonEmpty (t2 f)) ;;
  Printf (go "Running test: %s\n") [AString (test f)] ;;
  ' (_, err) <- runBoth (t1 f) (t2 f) (test f) ;;
  match err with
  | Some e => log_Fatalf "runBoth: %v" [AError e]
  | None => pure tt
  end ;;
  ' (stats, err) <- runBoth (t1 f) (t2 f) (test f) ;;
  match err with
  | Some e => log_Fatalf "runBoth(2): %v" [AError e]
  | None => pure tt
  end ;;
  err <- printStats (test f) stats ;;
  match err with
  | Some e => log_Fatalf "printStats: %v" [AError e]
  | None => pure tt
  end.

(** ** The command line

    [main] above is the program from its second statement on, given
    the values of the flags.  Its first statement, [flag.Parse()],
    reads the command line: it gives the three flags their values, or
    it refuses the command line, and then it is the library, not the
    program, that writes to standard error and ends the process, with a
    status of its own choice (2 for a flag that is not defined or that
    lacks its value).  The library is not part of this repository: what
    it makes of a command line is a parameter. *)
Inductive Parsed : Type :=
| Flagged (f : Flags)
| Refused (message : string) (status : Z).

Definition flag_Parse (commandLine : list string -> Parsed) (args : list string)
  : IO Flags :=
  match commandLine args with
  | Flagged f => pure f
  | Refused message status => emit (Write Stderr message) ;; os_Exit status
  end.

(** [func main()] as a whole, on the arguments [args] of the process. *)
Definition program (commandLine : list string -> Parsed) (args : list string) : IO unit :=
  f <- flag_Parse commandLine args ;;
  main f.

(** ** Reading a trace *)

(** What went to standard output, in order. *)
Fixpoint stdoutOf (tr : list Event) : string :=
  match tr with
  | [] => EmptyString
  | Write Stdout text :: rest => text ++ stdoutOf rest
  | _ :: rest => stdoutOf rest
  end.

(** The executables of the child processes that were started, in order. *)
Fixpoint startedPaths (tr : list Event) : list string :=
  match tr with
  | [] => []
  | Call (Start c) :: rest => Path c :: startedPaths rest
  | _ :: rest => startedPaths rest
  end.

(** The system calls that were made, in order. *)
Fixpoint calls (tr : list Event) : list SysCall :=
  match tr with
  | [] => []
  | Call c :: rest => c :: calls rest
  | _ :: rest => calls rest
  end.

Definition logged (s : Sys) (es : list Event) : Sys :=
  mkSys (world s) (trace s ++ es)%list.

(** ** The comparison record, in the words of the specification

    Tab-separated fields: the base name of the test file, then for the
    first and for the second toolchain [AsmInstrs], [StackSpace],
    [Seconds] and [WallSeconds], closed by a newline. *)
Definition statsFields (st : Stats) : list string :=
  [decimalString (AsmInstrs st); decimalString (StackSpace st);
   FormatFloat (Seconds st); FormatFloat (WallSeconds st)].

Fixpoint joinWith (sep : ascii) (fields : list string) : string :=
  match fields with
  | [] => EmptyString
  | [x] => x
  | x :: rest => x ++ String sep (joinWith sep rest)
  end.

Definition comparisonLine (test : string) (a b : Stats) : string :=
  joinWith TAB (pathBase test :: statsFields a ++ statsFields b)%list ++ String NL EmptyString.

(** The line that [main] prints before it runs anything. *)
Definition runningLine (test : string) : string :=
  "Running test: " ++ test ++ String NL EmptyString.

(** The executable of a toolchain. *)
Definition llc (toolchain : string) : string := pathJoin toolchain "bin/llc".

(** The toolchains of the four runs of the process runner that [main]
    asks for, each with the name its fatal message gives it. *)
Definition runs (f : Flags) : list (string * string) :=
  [("t1", t1 f); ("t2", t2 f); ("t1", t1 f); ("t2", t2 f)].

(** [runnerFails f s k name toolchain err s1]: from the state [s], in
    which [main] starts its first comparison, the runs before the run
    number [k] (from [0]) succeed and that run, of [toolchain], fails
    with [err] and leaves the state [s1]. *)
Inductive runnerFails (f : Flags) (s : Sys)
  : nat -> string -> string -> string -> Sys -> Prop :=
| fails_first : forall txt err s1,
    runTest (t1 f) (test f) s = Ok (txt, Some err) s1 ->
    runnerFails f s 0 "t1" (t1 f) err s1
| fails_second : forall r s1 txt err s2,
    runAndParse (t1 f) (test f) s = Ok (r, None) s1 ->
    runTest (t2 f) (test f) s1 = Ok (txt, Some err) s2 ->
    runnerFails f s 1 "t2" (t2 f) err s2
| fails_third : forall r s1 txt err s2,
    runBoth (t1 f) (t2 f) (test f) s = Ok r s1 ->
    runTest (t1 f) (test f) s1 = Ok (txt, Some err) s2 ->
    runnerFails f s 2 "t1" (t1 f) err s2
| fails_fourth : forall r s1 r1 s2 txt err s3,
    runBoth (t1 f) (t2 f) (test f) s = Ok r s1 ->
    runAndParse (t1 f) (test f) s1 = Ok (r1, None) s2 ->
    runTest (t2 f) (test f) s2 = Ok (txt, Some err) s3 ->
    runnerFails f s 3 "t2" (t2 f) err s3.

(** The text of the fatal message of [runBoth]. *)
Definition fatalMessage (name toolchain test err : string) : string :=
  "runTest(" ++ name ++ "=" ++ toolchain ++ ", test=" ++ test ++ "): " ++ err.

(** The executables of the four runs, in order. *)
Definition runPaths (f : Flags) : list string := map (fun r => llc (snd r)) (runs f).

(** The entries of the extractor as the logger shows them. *)
Definition logEvents (logs : list LogEntry) : list Event :=
  map (fun l => Log (Sprintf (logFormat l) (logArgs l))) logs.

(** [s1] comes after [s]: its trace is the trace of [s] followed by
    events that write nothing to standard output and start the
    executables [paths]. *)
Definition follows (s s1 : Sys) (paths : list string) : Prop :=
  exists es, trace s1 = (trace s ++ es)%list /\
             stdoutOf es = EmptyString /\ startedPaths es = paths.

(** The command that [runTest] builds for a toolchain, once the bytes
    [data] of the test file are its standard input. *)
Definition llcCommand (toolchain data : string) : Cmd :=
  mkCmd (llc toolchain)
        ["-O0"; "-stats"; "--time-passes"; "-relocation-model=pic"; "-O0";
         "-asm-verbose=false"]
        (Some data).

(** The seven calls of a run of the process runner, in order. *)
Definition runTestCalls (toolchain test data : string) : list SysCall :=
  let c := llcCommand toolchain data in
  [ReadFile test; StderrPipe c; StdoutPipe c; Start c; ReadAllOut c; ReadAllErr c; Wait c].

(** The error that [runTest] returns when its call number [k] (from
    1) fails with the error [raw]: the first three are passed on as
    they are, the last four are put behind the name of the step. *)
Definition stageError (k : nat) (raw : string) : string :=
  match k with
  | 4%nat => "cmd.Start: " ++ raw
  | 5%nat => "ioutil.ReadAll(outPipe): " ++ raw
  | 6%nat => "ioutil.ReadAll(errPipe): " ++ raw
  | 7%nat => "cmd.Wait: " ++ raw
  | _ => raw
  end.

(** [extracted toolchain test s a s1]: from the state [s] the run of
    [toolchain] on [test] succeeds, [a] is the record that the
    extractor reads in what the process wrote to standard error, and
    [s1] is the state once the warnings of the extractor are logged. *)
Definition extracted (toolchain test : string) (s : Sys) (a : Stats) (s1 : Sys) : Prop :=
  exists txt s' logs,
    runTest toolchain test s = Ok (txt, None) s' /\
    parseTestOutput width txt = Some (a, logs) /\
    s1 = logged s' (logEvents logs).

(** The first flag, in the order in which [main] checks them, that was
    not given. *)
Definition firstMissing (f : Flags) : option string :=
  if negb (nonEmpty (test f)) then Some "-test"
  else if negb (nonEmpty (t1 f)) then Some "-t1"
  else if negb (nonEmpty (t2 f)) then Some "-t2"
  else None.

End Driver.

Arguments Ok {E A} a s.
Arguments Exited {E A} status s.
Arguments Crashed {E A} s.

(** The binary64 values nearest to [0.0421] and to [0.0450]. *)
Definition f0_0421 : float64 := S754_finite false 6067249417993532 (-57).
Definition f0_0450 : float64 := S754_finite false 6485183463413514 (-57).

(* ================================================================== *)
(** * A scripted environment, for running the model on examples *)

Module Script.

(** The system answers the calls from a list, one answer per call, and
    fails every call once the list is used up. *)
Definition answer (c : SysCall) (w : list Response) : Response * list Response :=
  match w with
  | r :: rest => (r, rest)
  | [] => (inr "no answer", [])
  end.

(** The text after the last slash. *)
Fixpoint afterLastSlash (s acc : string) : string :=
  match s with
  | EmptyString => acc
  | String c s1 => if Ascii.eqb c "/" then afterLastSlash s1 s1 else afterLastSlash s1 acc
  end.

Definition showFloat (f : float64) : string :=
  match f with
  | S754_zero _ => "0"
  | S754_infinity false => "+Inf"
  | S754_infinity true => "-Inf"
  | S754_nan => "NaN"
  | S754_finite s m e =>
      (if s then "-" else EmptyString) ++
      DecimalString.NilEmpty.string_of_int (Z.to_int (Zpos m)) ++ "p" ++
      DecimalString.NilEmpty.string_of_int (Z.to_int e)
  end.

Definition showNumError (e : NumError) : string :=
  "parsing " ++ Num e ++ ": " ++
  match Err e with EINVAL => "invalid argument" | ERANGE => "numerical result out of range" end.

Definition env : Env := {|
  World := list Response;
  os := answer;
  pathJoin := fun a b => a ++ "/" ++ b;
  pathBase := fun p => afterLastSlash p p;
  FormatFloat := showFloat;
  NumErrorString := showNumError;
  width := Int32
|}.

Definition start (answers : list Response) : @Sys env := @mkSys env answers [].

(** The state in which no answer is left and [tr] was observed. *)
Definition start' (tr : list Event) : @Sys env := @mkSys env [] tr.

(** The end-to-end diagnostic text of the specification. *)
Definition report : string :=
  go ("1234 asm-printer               - Number of machine instrs printed\n" ++
      "56 pei-prologue-epilogue       - Number of bytes used for stack in all functions\n" ++
      "Total Execution Time: 0.0421 seconds (0.0450 wall clock)").

(** The answers to the seven calls of a run that succeeds with the
    diagnostic text [txt]. *)
Definition goodRun (txt : string) : list Response :=
  [inl "bitcode"; inl EmptyString; inl EmptyString; inl EmptyString; inl "assembly";
   inl txt; inl EmptyString].

Definition flags : Flags := mkFlags "/opt/a" "/opt/b" "tests/x.bc".

(** Four runs that succeed: the two of the first comparison report one
    instruction and two bytes, the two of the second give [report]. *)
Definition warmup : string :=
  go ("1 asm-printer - Number of machine instrs printed\n" ++
      "2 pei - Number of bytes used for stack in all functions").

Definition fourRuns : list Response :=
  (goodRun warmup ++ goodRun warmup ++ goodRun report ++ goodRun report)%list.

(** The first run succeeds, the executable of the second cannot be
    started. *)
Definition secondFails : list Response :=
  (goodRun report ++ [inl "bitcode"; inl EmptyString; inl EmptyString; inr "no such file"])%list.

(** The record extracted from [report]. *)
Definition reported : Stats := mkStats 1234 56 f0_0421 f0_0450.

(** A command line reader for the examples: it takes the three flags
    in the order [-t1], [-t2], [-test], each followed by its value, and
    refuses everything else with status 2. *)
Definition commandLine (args : list string) : Parsed :=
  match args with
  | [n1; v1; n2; v2; n3; v3] =>
      if String.eqb n1 "-t1" && String.eqb n2 "-t2" && String.eqb n3 "-test"
      then Flagged (mkFlags v1 v2 v3)
      else Refused "flag provided but not defined" 2
  | _ => Refused "flag provided but not defined" 2
  end.

End Script.

(** [nearest64 f num den]: [f] is a positive normal binary64 number
    [m * 2^e], with [e] negative, within half a unit in the last place
    of the fraction [num / den]. *)
Definition nearest64 (f : float64) (num den : Z) : Prop :=
  match f with
  | S754_finite false m (Zneg k) =>
      2 ^ 52 <= Zpos m < 2 ^ 53 /\
      2 * Z.abs (Zpos m * den - num * 2 ^ Zpos k) <= den
  | _ => False
  end.

(** The binary64 values [1.5] and [2.5], which are exact. *)
Definition f1_5 : float64 := S754_finite false 6755399441055744 (-52).
Definition f2_5 : float64 := S754_finite false 5629499534213120 (-51).

(** Diagnostic texts on which a number fails to parse. *)
Module Malformed.




End Malformed.

(* ================================================================== *)
(** * Vocabulary of the properties *)

(** The number of capturing groups of a pattern. *)
Fixpoint groups (re : Regexp) : nat :=
  match re with
  | [] => O
  | Cap _ :: re1 => S (groups re1)
  | _ :: re1 => groups re1
  end.

(** The state in which the loop goes on to the next line. *)
Definition after (o : outcome unit) : option LoopState :=
  match o with
  | Next _ st => Some st
  | Continue st => Some st
  | Panic => None
  end.

(** The pattern [re], with one integer group, does not stop the body of
    the loop on [line]: it does not match, or the integer it captures
    is read without error. *)
Definition intParses (w : intWidth) (re : Regexp) (line : string) : Prop :=
  MatchString re line = false \/
  exists m d v, FindStringSubmatch re line = [m; d] /\ Atoi w d = (v, None).

(** The entry logged when the number captured for [field] on [line],
    the text [sub], fails to parse with the error [e]. *)
Definition warning (field line sub : string) (e : NumError) : LogEntry :=
  mkLog ("parseTestOutput: could not parse int value of " ++ field ++
         " statistic for line=[%s], matched substring=[%s], err: %v")
        [AString line; AString sub; ANumError e].

(** None of the three patterns matches the line, once trimmed. *)
Definition noPattern (line : string) : Prop :=
  MatchString asmInstrsRegexp (TrimSpace line) = false /\
  MatchString stackSpaceRegexp (TrimSpace line) = false /\
  MatchString execTimeRegexp (TrimSpace line) = false.

(** Every byte of [s] is in the class [cl], and there is at least one. *)
Fixpoint allIn (cl : class) (s : string) : bool :=
  match s with
  | EmptyString => true
  | String c s1 => classMem cl c && allIn cl s1
  end.

Definition run (cl : class) (s : string) : Prop :=
  s <> EmptyString /\ allIn cl s = true.

(** No byte of [s] is in the class [cl]. *)
Fixpoint noneIn (cl : class) (s : string) : bool :=
  match s with
  | EmptyString => true
  | String c s1 => negb (classMem cl c) && noneIn cl s1
  end.

(** What it is for a pattern to match at the front of a text, apart
    from any order of search: [matches re s m caps] says that [m],
    a prefix of [s], is matched by [re] with the groups [caps]. *)
Inductive matches : Regexp -> string -> string -> list string -> Prop :=
| matches_nil : forall s, matches [] s EmptyString []
| matches_lit : forall l re s m caps,
    matches re s m caps -> matches (Lit l :: re) (l ++ s) (l ++ m) caps
| matches_plus : forall cl re d s m caps,
    run cl d -> matches re s m caps -> matches (Plus cl :: re) (d ++ s) (d ++ m) caps
| matches_cap : forall cl re d s m caps,
    run cl d -> matches re s m caps -> matches (Cap cl :: re) (d ++ s) (d ++ m) (d :: caps).

(** Every [cl+] of the pattern is followed by literal text whose first
    byte is outside [cl]: the run can end in one place only. *)
Fixpoint unambiguous (re : Regexp) : bool :=
  match re with
  | [] => true
  | Lit _ :: re1 => unambiguous re1
  | Plus cl :: re1 | Cap cl :: re1 =>
      match re1 with
      | Lit (String c _) :: _ => negb (classMem cl c) && unambiguous re1
      | _ => false
      end
  end.

(** Some pattern matches the line, once trimmed. *)
Definition relevant (line : string) : bool :=
  MatchString asmInstrsRegexp (TrimSpace line)
  || MatchString stackSpaceRegexp (TrimSpace line)
  || MatchString execTimeRegexp (TrimSpace line).

(** The largest [int]. *)
Definition maxInt (w : intWidth) : Z := 2 ^ (IntSize w - 1) - 1.

(** The classes of the groups of a pattern, in order. *)
Fixpoint capClasses (re : Regexp) : list class :=
  match re with
  | [] => []
  | Cap cl :: re1 => cl :: capClasses re1
  | _ :: re1 => capClasses re1
  end.

(** The pattern of the two times does not stop the body of the loop on
    [line]: it does not match, or both numbers it captures are read
    without error. *)
Definition timesParse (line : string) : Prop :=
  MatchString execTimeRegexp line = false \/
  exists m a b x y,
    FindStringSubmatch execTimeRegexp line = [m; a; b] /\
    Atof64 a = (x, None) /\ Atof64 b = (y, None).

(** No number of [line] fails to parse where the body reads it. *)
Definition quiet (w : intWidth) (line : string) : Prop :=
  intParses w asmInstrsRegexp (TrimSpace line) /\
  intParses w stackSpaceRegexp (TrimSpace line) /\
  timesParse (TrimSpace line).

(** [l] is the warning that [line] is due: the first conversion that
    fails on it, in the order of the body, is the one of [field], on
    the text of the group that [FindStringSubmatch] gives for the
    pattern of [field] on the trimmed line, and [l] names that field,
    the trimmed line, that text and the error of the conversion. *)
Definition warningOf (w : intWidth) (line : string) (l : LogEntry) : Prop :=
  (exists m d v e,
      FindStringSubmatch asmInstrsRegexp (TrimSpace line) = [m; d] /\
      Atoi w d = (v, Some e) /\
      l = warning "AsmInstrs" (TrimSpace line) d e) \/
  (exists m d v e,
      intParses w asmInstrsRegexp (TrimSpace line) /\
      FindStringSubmatch stackSpaceRegexp (TrimSpace line) = [m; d] /\
      Atoi w d = (v, Some e) /\
      l = warning "StackSpace" (TrimSpace line) d e) \/
  (exists m a b x e,
      intParses w asmInstrsRegexp (TrimSpace line) /\
      intParses w stackSpaceRegexp (TrimSpace line) /\
      FindStringSubmatch execTimeRegexp (TrimSpace line) = [m; a; b] /\
      Atof64 a = (x, Some e) /\
      l = warning "Seconds" (TrimSpace line) a e) \/
  (exists m a b x y e,
      intParses w asmInstrsRegexp (TrimSpace line) /\
      intParses w stackSpaceRegexp (TrimSpace line) /\
      FindStringSubmatch execTimeRegexp (TrimSpace line) = [m; a; b] /\
      Atof64 a = (x, None) /\ Atof64 b = (y, Some e) /\
      l = warning "WallSeconds" (TrimSpace line) b e).

(** [logs] holds, in the order of the lines, the warning of each line
    of [lines] that is due one, and nothing for a line that is
    [quiet]. *)
Inductive warningsOf (w : intWidth) : list string -> list LogEntry -> Prop :=
| warnings_nil : warningsOf w [] []
| warnings_skip : forall line lines logs,
    quiet w line ->
    warningsOf w lines logs -> warningsOf w (line :: lines) logs
| warnings_cons : forall line lines l logs,
    warningOf w line l -> warningsOf w lines logs ->
    warningsOf w (line :: lines) (l :: logs).

(** A binary64 value that is [+0], a positive number or [+Inf]: not a
    NaN, not negative, not [-0]. *)
Definition nonNegative64 (f : float64) : bool :=
  match f with
  | S754_zero false | S754_finite false _ _ | S754_infinity false => true
  | _ => false
  end.

(** What a block of an integer field that does not stop the body
    leaves in the record: the field takes the integer read from the
    group when the pattern [re] matches [line], and nothing changes
    when it does not. *)
Definition countEffect (w : intWidth) (re : Regexp) (set : Z -> Stats -> Stats)
    (line : string) (st : Stats) : Stats :=
  match FindStringSubmatch re line with
  | [_; d] => set (fst (Atoi w d)) st
  | _ => st
  end.

Definition asmEffect (w : intWidth) : string -> Stats -> Stats :=
  countEffect w asmInstrsRegexp setAsmInstrs.

Definition stackEffect (w : intWidth) : string -> Stats -> Stats :=
  countEffect w stackSpaceRegexp setStackSpace.




(** [s] is empty or starts with a byte outside [cl]. *)
Definition stops (cl : class) (s : string) : Prop :=
  match s with
  | EmptyString => True
  | String c _ => classMem cl c = false
  end.

(** The byte [c] does not occur in [s]. *)
Fixpoint lacks (c : ascii) (s : string) : bool :=
  match s with
  | EmptyString => true
  | String c1 s1 => negb (Ascii.eqb c c1) && lacks c s1
  end.

(* ================================================================== *)
(** * Facts about the patterns *)

Lemma plus_inv {R : Type} (cl : class) (k : string -> option R) (s run : string) (r : R) :
  plus cl k s = Some (run, r) -> exists s1, k s1 = Some r.
Proof.
  revert run r. induction s as [|c s IH]; simpl; intros run r H; [discriminate|].
  destruct (classMem cl c); [|discriminate].
  destruct (plus cl k s) as [[run1 r1]|] eqn:Hp.
  - inversion H; subst. eapply IH; eauto.
  - destruct (k s) eqn:Hk; inversion H; subst; eauto.
Qed.

Lemma matchHere_groups (re : Regexp) :
  forall s m caps, matchHere re s = Some (m, caps) -> List.length caps = groups re.
Proof.
  induction re as [|n re IH]; simpl; intros s m caps H.
  - inversion H; reflexivity.
  - destruct n as [l|cl|cl].
    + destruct (stripPrefix l s) as [s1|]; [|discriminate].
      destruct (matchHere re s1) as [[m1 c1]|] eqn:Hm; inversion H; subst; eauto.
    + destruct (plus cl (matchHere re) s) as [[r [m1 c1]]|] eqn:Hp; inversion H; subst.
      apply plus_inv in Hp as [s1 Hk]; eauto.
    + destruct (plus cl (matchHere re) s) as [[r [m1 c1]]|] eqn:Hp; inversion H; subst.
      apply plus_inv in Hp as [s1 Hk]. simpl. f_equal. eauto.
Qed.

Lemma search_groups (re : Regexp) :
  forall s m caps, search re s = Some (m, caps) -> List.length caps = groups re.
Proof.
  induction s as [|c s IH]; simpl; intros m caps H.
  - destruct (matchHere re EmptyString) as [p|] eqn:Hm; inversion H; subst.
    eapply matchHere_groups; eauto.
  - destruct (matchHere re (String c s)) as [p|] eqn:Hm.
    + inversion H; subst. eapply matchHere_groups; eauto.
    + eauto.
Qed.

(** [FindStringSubmatch] gives the match and one text per group exactly
    when [MatchString] holds, and nothing otherwise. *)
Lemma FindStringSubmatch_length (re : Regexp) (s : string) :
  List.length (FindStringSubmatch re s) =
  if MatchString re s then S (groups re) else O.
Proof.
  unfold FindStringSubmatch, MatchString.
  destruct (search re s) as [[m caps]|] eqn:H; simpl; [|reflexivity].
  f_equal. eapply search_groups; eauto.
Qed.

Lemma FindStringSubmatch_match (re : Regexp) (s : string) (ss : list string) :
  FindStringSubmatch re s = ss -> ss <> [] -> MatchString re s = true.
Proof.
  unfold FindStringSubmatch, MatchString. intros H Hne.
  destruct (search re s) as [[m caps]|]; [reflexivity|]. subst. contradiction.
Qed.

Lemma one_group (re : Regexp) (s : string) :
  groups re = 1%nat -> MatchString re s = true ->
  exists m d, FindStringSubmatch re s = [m; d].
Proof.
  intros Hg Hm. pose proof (FindStringSubmatch_length re s) as Hl.
  rewrite Hm, Hg in Hl.
  destruct (FindStringSubmatch re s) as [|m [|d [|x l]]]; simpl in Hl; try discriminate.
  eauto.
Qed.

Lemma two_groups (re : Regexp) (s : string) :
  groups re = 2%nat -> MatchString re s = true ->
  exists m a b, FindStringSubmatch re s = [m; a; b].
Proof.
  intros Hg Hm. pose proof (FindStringSubmatch_length re s) as Hl.
  rewrite Hm, Hg in Hl.
  destruct (FindStringSubmatch re s) as [|m [|a [|b [|x l]]]]; simpl in Hl; try discriminate.
  eauto.
Qed.

(** The patterns as the source writes them. *)
Lemma patterns_text :
  show stackSpaceRegexp = "([0-9]+) pei[^N]+Number of bytes used for stack in all functions" /\
  show asmInstrsRegexp = "([0-9]+) asm-printer[^N]+Number of machine instrs printed" /\
  show execTimeRegexp =
    "Total Execution Time: ([0-9.]+) seconds " ++ String BACKSLASH "(([0-9.]+) wall clock" ++
    String BACKSLASH ")".
Proof. repeat split; reflexivity. Qed.

(* ================================================================== *)
(** * Facts about the body of the loop *)

Ltac body_unfold :=
  unfold bind, when, whenErr, ret, continue, logPrintf, update, at_, index; simpl.

Section ExtractorFacts.

Variable w : intWidth.

(** What the first block does to a line: nothing when the pattern does
    not match; otherwise the field takes what [Atoi] returns, and on an
    error an entry is logged and the rest of the body is skipped. *)
Lemma asmInstrsBlock_cases (line : string) (st : LoopState) :
  (MatchString asmInstrsRegexp line = false /\ asmInstrsBlock w line st = Next tt st) \/
  (exists m d, FindStringSubmatch asmInstrsRegexp line = [m; d] /\
     ((exists v, Atoi w d = (v, None) /\
         asmInstrsBlock w line st = Next tt (setAsmInstrs v (fst st), snd st)) \/
      (exists v e l, Atoi w d = (v, Some e) /\
         asmInstrsBlock w line st =
           Continue (setAsmInstrs v (fst st), (snd st ++ [l])%list)))).
Proof.
  unfold asmInstrsBlock.
  destruct (MatchString asmInstrsRegexp line) eqn:Hm.
  - right. destruct (one_group asmInstrsRegexp line eq_refl Hm) as (m & d & Hf).
    exists m, d. split; [exact Hf|]. rewrite Hf. body_unfold.
    destruct (Atoi w d) as [v [e|]]; body_unfold; [right|left]; eauto.
  - left. split; reflexivity.
Qed.

Lemma stackSpaceBlock_cases (line : string) (st : LoopState) :
  (MatchString stackSpaceRegexp line = false /\ stackSpaceBlock w line st = Next tt st) \/
  (exists m d, FindStringSubmatch stackSpaceRegexp line = [m; d] /\
     ((exists v, Atoi w d = (v, None) /\
         stackSpaceBlock w line st = Next tt (setStackSpace v (fst st), snd st)) \/
      (exists v e l, Atoi w d = (v, Some e) /\
         stackSpaceBlock w line st =
           Continue (setStackSpace v (fst st), (snd st ++ [l])%list)))).
Proof.
  unfold stackSpaceBlock.
  destruct (MatchString stackSpaceRegexp line) eqn:Hm.
  - right. destruct (one_group stackSpaceRegexp line eq_refl Hm) as (m & d & Hf).
    exists m, d. split; [exact Hf|]. rewrite Hf. body_unfold.
    destruct (Atoi w d) as [v [e|]]; body_unfold; [right|left]; eauto.
  - left. split; reflexivity.
Qed.

Lemma execTimeBlock_cases (line : string) (st : LoopState) :
  (MatchString execTimeRegexp line = false /\ execTimeBlock line st = Next tt st) \/
  (exists m a b, FindStringSubmatch execTimeRegexp line = [m; a; b] /\
     ((exists x y, Atof64 a = (x, None) /\ Atof64 b = (y, None) /\
         execTimeBlock line st =
           Next tt (setWallSeconds y (setSeconds x (fst st)), snd st)) \/
      (exists x e l, Atof64 a = (x, Some e) /\
         execTimeBlock line st = Continue (setSeconds x (fst st), (snd st ++ [l])%list)) \/
      (exists x y e l, Atof64 a = (x, None) /\ Atof64 b = (y, Some e) /\
         execTimeBlock line st =
           Continue (setWallSeconds y (setSeconds x (fst st)), (snd st ++ [l])%list)))).
Proof.
  unfold execTimeBlock.
  destruct (MatchString execTimeRegexp line) eqn:Hm.
  - right. destruct (two_groups execTimeRegexp line eq_refl Hm) as (m & a & b & Hf).
    exists m, a, b. split; [exact Hf|]. rewrite Hf. body_unfold.
    destruct (Atof64 a) as [x [e|]]; body_unfold.
    + right; left; eauto.
    + destruct (Atof64 b) as [y [e|]]; body_unfold.
      * right; right. exists x, y, e. eauto.
      * left; eauto.
  - left. split; reflexivity.
Qed.

Lemma loopBody_eq (line : string) (st : LoopState) :
  loopBody w line st =
  match asmInstrsBlock w (TrimSpace line) st with
  | Next _ st1 =>
      match stackSpaceBlock w (TrimSpace line) st1 with
      | Next _ st2 => execTimeBlock (TrimSpace line) st2
      | Continue st2 => Continue st2
      | Panic => Panic
      end
  | Continue st1 => Continue st1
  | Panic => Panic
  end.
Proof. reflexivity. Qed.

Ltac asm_cases l st :=
  destruct (asmInstrsBlock_cases l st)
    as [[Hm1 Hb1] | (m1 & d1 & Hf1 & [(v1 & Ha1 & Hb1) | (v1 & e1 & lg1 & Ha1 & Hb1)])];
  rewrite Hb1; clear Hb1.

Ltac stack_cases l st :=
  destruct (stackSpaceBlock_cases l st)
    as [[Hm2 Hb2] | (m2 & d2 & Hf2 & [(v2 & Ha2 & Hb2) | (v2 & e2 & lg2 & Ha2 & Hb2)])];
  rewrite Hb2; clear Hb2.

Ltac time_cases l st :=
  destruct (execTimeBlock_cases l st)
    as [[Hm3 Hb3] | (m3 & a3 & b3 & Hf3 &
          [(x3 & y3 & Ha3 & Hc3 & Hb3) | [(x3 & e3 & lg3 & Ha3 & Hb3)
                                         | (x3 & y3 & e3 & lg3 & Ha3 & Hc3 & Hb3)]])];
  rewrite Hb3; clear Hb3.

(** Runs the three blocks of the body on [line], case by case. *)
Ltac body_cases line :=
  rewrite loopBody_eq;
  match goal with
  | |- context [asmInstrsBlock w (TrimSpace line) ?st] => asm_cases (TrimSpace line) st
  end;
  try match goal with
  | |- context [stackSpaceBlock w (TrimSpace line) ?st] => stack_cases (TrimSpace line) st
  end;
  try match goal with
  | |- context [execTimeBlock (TrimSpace line) ?st] => time_cases (TrimSpace line) st
  end.

(** The body never panics: the slices it indexes are long enough. *)
Lemma loopBody_total (line : string) (st : LoopState) :
  exists st1, after (loopBody w line st) = Some st1.
Proof. body_cases line; simpl; eauto. Qed.

(** A line that no pattern matches leaves the state as it is. *)
Lemma loopBody_noPattern (line : string) (st : LoopState) :
  noPattern line -> loopBody w line st = Next tt st.
Proof.
  intros (H1 & H2 & H3). unfold loopBody, bind, asmInstrsBlock, stackSpaceBlock, execTimeBlock.
  rewrite H1, H2, H3. reflexivity.
Qed.

Lemma found_match (re : Regexp) (s : string) (ss : list string) (x : string) :
  FindStringSubmatch re s = x :: ss -> MatchString re s = true.
Proof. intros H. eapply FindStringSubmatch_match; [exact H|discriminate]. Qed.

(** A line that a pattern does not match leaves the field of that
    pattern as it is, whatever the other patterns do. *)
Lemma loopBody_keeps_AsmInstrs (line : string) (st : LoopState) :
  MatchString asmInstrsRegexp (TrimSpace line) = false ->
  exists st1, after (loopBody w line st) = Some st1 /\
              AsmInstrs (fst st1) = AsmInstrs (fst st).
Proof.
  intros H. body_cases line; simpl;
    try (apply found_match in Hf1; congruence); eauto.
Qed.

Lemma loopBody_keeps_StackSpace (line : string) (st : LoopState) :
  MatchString stackSpaceRegexp (TrimSpace line) = false ->
  exists st1, after (loopBody w line st) = Some st1 /\
              StackSpace (fst st1) = StackSpace (fst st).
Proof.
  intros H. body_cases line; simpl;
    try (apply found_match in Hf2; congruence); eauto.
Qed.

Lemma loopBody_keeps_times (line : string) (st : LoopState) :
  MatchString execTimeRegexp (TrimSpace line) = false ->
  exists st1, after (loopBody w line st) = Some st1 /\
              Seconds (fst st1) = Seconds (fst st) /\
              WallSeconds (fst st1) = WallSeconds (fst st).
Proof.
  intros H. body_cases line; simpl;
    try (apply found_match in Hf3; congruence); eauto.
Qed.




End ExtractorFacts.

(* ================================================================== *)
(** * Facts about the loop over the lines *)

Section LoopFacts.

Variable w : intWidth.

Lemma forLines_cons (line : string) (rest : list string) (st : LoopState) :
  forLines w (line :: rest) st =
  match after (loopBody w line st) with
  | Some st1 => forLines w rest st1
  | None => None
  end.
Proof. simpl. destruct (loopBody w line st); reflexivity. Qed.

Lemma forLines_app (l1 l2 : list string) :
  forall st, forLines w (l1 ++ l2) st =
             match forLines w l1 st with
             | Some st1 => forLines w l2 st1
             | None => None
             end.
Proof.
  induction l1 as [|line l1 IH]; intros st; [reflexivity|].
  rewrite <- app_comm_cons, !forLines_cons.
  destruct (after (loopBody w line st)); [apply IH|reflexivity].
Qed.

(** The loop always reaches its end. *)
Lemma forLines_total (lines : list string) :
  forall st, exists st1, forLines w lines st = Some st1.
Proof.
  induction lines as [|line lines IH]; intros st; [simpl; eauto|].
  rewrite forLines_cons. destruct (loopBody_total w line st) as [st1 ->]. apply IH.
Qed.

Lemma forLines_noPattern (lines : list string) :
  Forall noPattern lines -> forall st, forLines w lines st = Some st.
Proof.
  induction 1 as [|line lines Hl _ IH]; intros st; [reflexivity|].
  rewrite forLines_cons, (loopBody_noPattern w line st Hl). apply IH.
Qed.

Lemma forLines_keeps_AsmInstrs (lines : list string) :
  Forall (fun l => MatchString asmInstrsRegexp (TrimSpace l) = false) lines ->
  forall st st1, forLines w lines st = Some st1 -> AsmInstrs (fst st1) = AsmInstrs (fst st).
Proof.
  induction 1 as [|line lines Hl _ IH]; intros st st1 H.
  - inversion H; reflexivity.
  - rewrite forLines_cons in H.
    destruct (loopBody_keeps_AsmInstrs w line st Hl) as (st2 & E & Hk).
    rewrite E in H. rewrite (IH _ _ H). exact Hk.
Qed.

Lemma forLines_keeps_StackSpace (lines : list string) :
  Forall (fun l => MatchString stackSpaceRegexp (TrimSpace l) = false) lines ->
  forall st st1, forLines w lines st = Some st1 -> StackSpace (fst st1) = StackSpace (fst st).
Proof.
  induction 1 as [|line lines Hl _ IH]; intros st st1 H.
  - inversion H; reflexivity.
  - rewrite forLines_cons in H.
    destruct (loopBody_keeps_StackSpace w line st Hl) as (st2 & E & Hk).
    rewrite E in H. rewrite (IH _ _ H). exact Hk.
Qed.

Lemma forLines_keeps_times (lines : list string) :
  Forall (fun l => MatchString execTimeRegexp (TrimSpace l) = false) lines ->
  forall st st1, forLines w lines st = Some st1 ->
    Seconds (fst st1) = Seconds (fst st) /\ WallSeconds (fst st1) = WallSeconds (fst st).
Proof.
  induction 1 as [|line lines Hl _ IH]; intros st st1 H.
  - inversion H; split; reflexivity.
  - rewrite forLines_cons in H.
    destruct (loopBody_keeps_times w line st Hl) as (st2 & E & Hk1 & Hk2).
    rewrite E in H. destruct (IH _ _ H) as [-> ->]. split; assumption.
Qed.


(** The extractor returns, on every text. *)
Lemma parseTestOutput_returns (stderr : string) :
  exists stats logs, parseTestOutput w stderr = Some (stats, logs).
Proof.
  unfold parseTestOutput.
  destruct (forLines_total (Split stderr NL) (newStats, [])) as [[stats logs] H].
  eauto.
Qed.

End LoopFacts.

(* ================================================================== *)
(** * Facts about matching a line of a known shape *)

Lemma stripPrefix_app (p s : string) : stripPrefix p (p ++ s) = Some s.
Proof.
  induction p as [|c p IH]; simpl; [reflexivity|]. rewrite Ascii.eqb_refl. exact IH.
Qed.

Lemma append_assoc (a b c : string) : (a ++ b) ++ c = a ++ (b ++ c).
Proof. induction a as [|x a IH]; simpl; [reflexivity|]. now rewrite IH. Qed.

Lemma plus_stops {R : Type} (cl : class) (k : string -> option R) (s : string) :
  stops cl s -> plus cl k s = None.
Proof. destruct s as [|c s]; simpl; [reflexivity|]. now intros ->. Qed.

(** A whole run of [cl], followed by text that the continuation
    accepts, is what [cl+] consumes. *)
Lemma plus_run {R : Type} (cl : class) (k : string -> option R) (d s : string) (r : R) :
  run cl d -> stops cl s -> k s = Some r -> plus cl k (d ++ s) = Some (d, r).
Proof.
  intros [Hne Hall] Hs Hk. induction d as [|c d IH]; [contradiction|].
  simpl in Hall. apply andb_prop in Hall as [Hc Hd]. simpl. rewrite Hc.
  destruct d as [|c1 d].
  - simpl. rewrite (plus_stops cl k s Hs), Hk. reflexivity.
  - rewrite IH; [reflexivity|discriminate|exact Hd].
Qed.

(** A pattern that starts with a group of [cl+] matches nowhere inside
    text without a byte of [cl]. *)
Lemma search_skip_cap (cl : class) (re : Regexp) (pre s : string) :
  noneIn cl pre = true -> s <> EmptyString ->
  search (Cap cl :: re) (pre ++ s) = search (Cap cl :: re) s.
Proof.
  intros Hp Hs. induction pre as [|c pre IH]; [reflexivity|].
  simpl in Hp. apply andb_prop in Hp as [Hc Hp].
  change (String c pre ++ s) with (String c (pre ++ s)).
  cbn [search matchHere plus]. apply negb_true_iff in Hc. rewrite Hc. apply IH, Hp.
Qed.

(** A pattern that starts with literal text matches nowhere inside text
    without the first byte of the literal. *)
Lemma search_skip_lit (c : ascii) (l : string) (re : Regexp) (pre s : string) :
  lacks c pre = true -> s <> EmptyString ->
  search (Lit (String c l) :: re) (pre ++ s) = search (Lit (String c l) :: re) s.
Proof.
  intros Hp Hs. induction pre as [|c1 pre IH]; [reflexivity|].
  simpl in Hp. apply andb_prop in Hp as [Hc Hp].
  change (String c1 pre ++ s) with (String c1 (pre ++ s)).
  cbn [search matchHere stripPrefix]. apply negb_true_iff in Hc. rewrite Hc. apply IH, Hp.
Qed.

Lemma search_here (re : Regexp) (s : string) (r : string * list string) :
  matchHere re s = Some r -> search re s = Some r.
Proof. intros H. destruct s; simpl; rewrite H; reflexivity. Qed.

Lemma matchHere_lit (l : string) (re : Regexp) (s m : string) (caps : list string) :
  matchHere re s = Some (m, caps) ->
  matchHere (Lit l :: re) (l ++ s) = Some (l ++ m, caps).
Proof. intros H. simpl. rewrite stripPrefix_app, H. reflexivity. Qed.

Lemma matchHere_plus (cl : class) (re : Regexp) (d s m : string) (caps : list string) :
  run cl d -> stops cl s -> matchHere re s = Some (m, caps) ->
  matchHere (Plus cl :: re) (d ++ s) = Some (d ++ m, caps).
Proof. intros Hd Hs H. simpl. rewrite (plus_run cl _ d s (m, caps) Hd Hs H). reflexivity. Qed.

Lemma matchHere_cap (cl : class) (re : Regexp) (d s m : string) (caps : list string) :
  run cl d -> stops cl s -> matchHere re s = Some (m, caps) ->
  matchHere (Cap cl :: re) (d ++ s) = Some (d ++ m, d :: caps).
Proof. intros Hd Hs H. simpl. rewrite (plus_run cl _ d s (m, caps) Hd Hs H). reflexivity. Qed.

Lemma append_empty_r (s : string) : s ++ EmptyString = s.
Proof. induction s as [|c s IH]; simpl; [reflexivity|]. now rewrite IH. Qed.

Lemma run_nonempty (cl : class) (d s : string) : run cl d -> d ++ s <> EmptyString.
Proof. intros [Hne _]. destruct d; [contradiction|discriminate]. Qed.

(** The two integer patterns share their shape: digits, a tag, text
    without [N], a phrase. *)
Lemma integer_pattern_anywhere (tag phrase pre d mid post : string) :
  stops digit (tag ++ mid ++ phrase ++ post) ->
  stops notN (phrase ++ post) ->
  noneIn digit pre = true -> run digit d -> run notN mid ->
  FindStringSubmatch [Cap digit; Lit tag; Plus notN; Lit phrase]
    (pre ++ d ++ tag ++ mid ++ phrase ++ post)
  = [d ++ tag ++ mid ++ phrase; d].
Proof.
  intros Ht Hp Hpre Hd Hmid. unfold FindStringSubmatch.
  rewrite search_skip_cap by (eauto using run_nonempty).
  erewrite search_here.
  2:{ apply matchHere_cap; [exact Hd|exact Ht|].
      apply matchHere_lit. apply matchHere_plus; [exact Hmid|exact Hp|].
      apply matchHere_lit. reflexivity. }
  simpl. rewrite append_empty_r. reflexivity.
Qed.

(** The pattern of the instruction count finds its fragment anywhere
    in a line, behind any text without a digit. *)
Lemma asmInstrs_anywhere (pre d mid post : string) :
  noneIn digit pre = true -> run digit d -> run notN mid ->
  FindStringSubmatch asmInstrsRegexp
    (pre ++ d ++ " asm-printer" ++ mid ++ "Number of machine instrs printed" ++ post)
  = [d ++ " asm-printer" ++ mid ++ "Number of machine instrs printed"; d].
Proof. intros. apply integer_pattern_anywhere; auto; reflexivity. Qed.

Lemma stackSpace_anywhere (pre d mid post : string) :
  noneIn digit pre = true -> run digit d -> run notN mid ->
  FindStringSubmatch stackSpaceRegexp
    (pre ++ d ++ " pei" ++ mid ++ "Number of bytes used for stack in all functions" ++ post)
  = [d ++ " pei" ++ mid ++ "Number of bytes used for stack in all functions"; d].
Proof. intros. apply integer_pattern_anywhere; auto; reflexivity. Qed.

Lemma execTime_anywhere (pre a b post : string) :
  lacks "T" pre = true -> run digitOrDot a -> run digitOrDot b ->
  FindStringSubmatch execTimeRegexp
    (pre ++ "Total Execution Time: " ++ a ++ " seconds (" ++ b ++ " wall clock)" ++ post)
  = ["Total Execution Time: " ++ a ++ " seconds (" ++ b ++ " wall clock)"; a; b].
Proof.
  intros Hpre Ha Hb. unfold FindStringSubmatch, execTimeRegexp.
  rewrite search_skip_lit by (auto; discriminate).
  erewrite search_here.
  2:{ apply matchHere_lit. apply matchHere_cap; [exact Ha|reflexivity|].
      apply matchHere_lit. apply matchHere_cap; [exact Hb|reflexivity|].
      apply matchHere_lit. reflexivity. }
  reflexivity.
Qed.

(* ================================================================== *)
(** * The search finds the one leftmost match

    The matcher tries the longest run first and backs off.  For the
    three patterns the order of the tries does not matter: at a given
    place at most one match exists, so that a library that prefers the
    longest match and one that prefers the first agree on them. *)

Lemma stripPrefix_sound (l s s1 : string) : stripPrefix l s = Some s1 -> s = l ++ s1.
Proof.
  revert s. induction l as [|c l IH]; simpl; intros s H.
  - inversion H; reflexivity.
  - destruct s as [|b s]; [discriminate|].
    destruct (Ascii.eqb c b) eqn:Hc; [|discriminate].
    apply Ascii.eqb_eq in Hc. subst b. f_equal. apply IH, H.
Qed.

Lemma plus_sound {R : Type} (cl : class) (k : string -> option R) (s d : string) (r : R) :
  plus cl k s = Some (d, r) -> exists s1, s = d ++ s1 /\ run cl d /\ k s1 = Some r.
Proof.
  revert d r. induction s as [|c s IH]; simpl; intros d r H; [discriminate|].
  destruct (classMem cl c) eqn:Hc; [|discriminate].
  destruct (plus cl k s) as [[d1 r1]|] eqn:Hp.
  - inversion H; subst. destruct (IH _ _ eq_refl) as (s1 & -> & [Hne Hall] & Hk).
    exists s1. repeat split; auto; [discriminate|]. simpl. now rewrite Hc.
  - destruct (k s) as [r1|] eqn:Hk; inversion H; subst.
    exists s. repeat split; auto; [discriminate|]. simpl. now rewrite Hc.
Qed.

Lemma matchHere_sound (re : Regexp) :
  forall s m caps, matchHere re s = Some (m, caps) -> matches re s m caps.
Proof.
  induction re as [|n re IH]; simpl; intros s m caps H.
  - inversion H. constructor.
  - destruct n as [l|cl|cl].
    + destruct (stripPrefix l s) as [s1|] eqn:Hs; [|discriminate].
      destruct (matchHere re s1) as [[m1 c1]|] eqn:Hm; inversion H; subst.
      rewrite (stripPrefix_sound _ _ _ Hs). constructor. auto.
    + destruct (plus cl (matchHere re) s) as [[d [m1 c1]]|] eqn:Hp; inversion H; subst.
      destruct (plus_sound _ _ _ _ _ Hp) as (s1 & -> & Hr & Hk). constructor; auto.
    + destruct (plus cl (matchHere re) s) as [[d [m1 c1]]|] eqn:Hp; inversion H; subst.
      destruct (plus_sound _ _ _ _ _ Hp) as (s1 & -> & Hr & Hk). constructor; auto.
Qed.

Lemma plus_complete {R : Type} (cl : class) (k : string -> option R) (d s : string) (r : R) :
  run cl d -> k s = Some r -> exists res, plus cl k (d ++ s) = Some res.
Proof.
  intros [Hne Hall] Hk. induction d as [|c d IH]; [contradiction|].
  simpl in Hall. apply andb_prop in Hall as [Hc Hd]. simpl. rewrite Hc.
  destruct d as [|c1 d].
  - simpl. destruct (plus cl k s) as [[d1 r1]|]; [eauto|]. rewrite Hk. eauto.
  - destruct IH as [[d1 r1] ->]; [discriminate|exact Hd|]. eauto.
Qed.

Lemma matchHere_complete (re : Regexp) (s m : string) (caps : list string) :
  matches re s m caps -> exists m1 caps1, matchHere re s = Some (m1, caps1).
Proof.
  induction 1 as [s | l re s m caps _ (m1 & c1 & IH) | cl re d s m caps Hr _ (m1 & c1 & IH)
                 | cl re d s m caps Hr _ (m1 & c1 & IH)]; simpl.
  - eauto.
  - rewrite stripPrefix_app, IH. eauto.
  - destruct (plus_complete cl _ d s _ Hr IH) as [[d1 [m2 c2]] ->]. eauto.
  - destruct (plus_complete cl _ d s _ Hr IH) as [[d1 [m2 c2]] ->]. eauto.
Qed.






Lemma patterns_unambiguous :
  unambiguous asmInstrsRegexp = true /\ unambiguous stackSpaceRegexp = true /\
  unambiguous execTimeRegexp = true.
Proof. repeat split; reflexivity. Qed.

(** The search returns a match at the first place where one exists. *)
Lemma search_leftmost (re : Regexp) (s m : string) (caps : list string) :
  search re s = Some (m, caps) ->
  exists pre t, s = pre ++ t /\ matches re t m caps /\
    forall pre1 t1 m1 caps1,
      s = pre1 ++ t1 -> (String.length pre1 < String.length pre)%nat ->
      ~ matches re t1 m1 caps1.
Proof.
  induction s as [|c s IH]; simpl; intros H.
  - destruct (matchHere re EmptyString) as [[m1 c1]|] eqn:Hm; inversion H; subst.
    exists EmptyString, EmptyString. repeat split; [apply matchHere_sound, Hm|].
    simpl. intros. lia.
  - destruct (matchHere re (String c s)) as [[m1 c1]|] eqn:Hm.
    + inversion H; subst. exists EmptyString, (String c s).
      repeat split; [apply matchHere_sound, Hm|]. simpl. intros. lia.
    + destruct (IH H) as (pre & t & -> & M & Hleft).
      exists (String c pre), t. repeat split; auto.
      intros pre1 t1 m1 caps1 E Hlen M1. destruct pre1 as [|b pre1].
      * simpl in E. subst t1.
        destruct (matchHere_complete _ _ _ _ M1) as (m2 & c2 & Hc). congruence.
      * simpl in E. inversion E; subst. simpl in Hlen.
        apply (Hleft pre1 t1 m1 caps1 H2); [lia|exact M1].
Qed.








(* ================================================================== *)
(** * The statistics extractor: the claims *)

(** C1: on the three-line diagnostic text of the end-to-end scenario the
    extractor returns AsmInstrs = 1234, StackSpace = 56, Seconds = 0.0421
    and WallSeconds = 0.0450, the two times being the binary64 numbers
    nearest to 421/10000 and to 450/10000; it logs nothing. *)
Theorem parseTestOutput_end_to_end (w : intWidth) :
  parseTestOutput w Script.report = Some (mkStats 1234 56 f0_0421 f0_0450, []) /\
  nearest64 f0_0421 421 10000 /\ nearest64 f0_0450 450 10000.
Proof.
  split; [destruct w; vm_compute; reflexivity|].
  unfold nearest64, f0_0421, f0_0450. repeat split; vm_compute; congruence.
Qed.




Lemma not_found (re : Regexp) (s : string) :
  MatchString re s = false -> FindStringSubmatch re s = [].
Proof.
  unfold MatchString, FindStringSubmatch. destruct (search re s) as [[m c]|]; [discriminate|].
  reflexivity.
Qed.

(** A block of an integer field whose number parses, or whose pattern
    does not match, hands the record on to the next block without a
    word in the log. *)
Lemma asmInstrsBlock_passes (w : intWidth) (line : string) (st : LoopState) :
  intParses w asmInstrsRegexp line ->
  asmInstrsBlock w line st = Next tt (asmEffect w line (fst st), snd st).
Proof.
  unfold asmEffect, countEffect, asmInstrsBlock.
  intros [Hm | (m & d & v & Hf & Ha)].
  - rewrite Hm, (not_found _ _ Hm). destruct st; reflexivity.
  - rewrite (found_match _ _ _ _ Hf), Hf. body_unfold. rewrite Ha. reflexivity.
Qed.

Lemma stackSpaceBlock_passes (w : intWidth) (line : string) (st : LoopState) :
  intParses w stackSpaceRegexp line ->
  stackSpaceBlock w line st = Next tt (stackEffect w line (fst st), snd st).
Proof.
  unfold stackEffect, countEffect, stackSpaceBlock.
  intros [Hm | (m & d & v & Hf & Ha)].
  - rewrite Hm, (not_found _ _ Hm). destruct st; reflexivity.
  - rewrite (found_match _ _ _ _ Hf), Hf. body_unfold. rewrite Ha. reflexivity.
Qed.



(** C6: when no line of the diagnostic text matches any of the three
    patterns, the extractor returns the record with all four fields at
    zero. *)
Theorem parseTestOutput_zero_default (w : intWidth) (stderr : string) :
  Forall noPattern (Split stderr NL) ->
  parseTestOutput w stderr = Some (mkStats 0 0 zero64 zero64, []).
Proof. intros H. unfold parseTestOutput. apply forLines_noPattern, H. Qed.

Lemma parseTestOutput_zero_default_witness :
  parseTestOutput Int32 (go "llc: warning\n\n  3 passes run") =
  Some (mkStats 0 0 zero64 zero64, []).
Proof.
  apply parseTestOutput_zero_default.
  repeat constructor.
Defined.

(** C7: when the only line that matches a pattern is a well-formed line
    of execution times, the extractor returns the two parsed numbers in
    Seconds and WallSeconds and zero in AsmInstrs and StackSpace. *)
Theorem parseTestOutput_only_execTime (w : intWidth) (stderr : string)
    (pre post : list string) (line m a b : string) (x y : float64) :
  Split stderr NL = (pre ++ line :: post)%list ->
  Forall noPattern pre -> Forall noPattern post ->
  MatchString asmInstrsRegexp (TrimSpace line) = false ->
  MatchString stackSpaceRegexp (TrimSpace line) = false ->
  FindStringSubmatch execTimeRegexp (TrimSpace line) = [m; a; b] ->
  Atof64 a = (x, None) -> Atof64 b = (y, None) ->
  parseTestOutput w stderr = Some (mkStats 0 0 x y, []).
Proof.
  intros Hs Hpre Hpost H1 H2 Hf Ha Hb. unfold parseTestOutput. rewrite Hs.
  rewrite forLines_app, (forLines_noPattern w pre Hpre), forLines_cons.
  assert (E : loopBody w line (newStats, []) = Next tt (mkStats 0 0 x y, [])).
  { pose proof (found_match _ _ _ _ Hf) as Hm.
    unfold loopBody, bind, asmInstrsBlock, stackSpaceBlock, execTimeBlock.
    rewrite H1, H2, Hm, Hf. body_unfold. rewrite Ha. body_unfold. rewrite Hb. reflexivity. }
  rewrite E. simpl. apply forLines_noPattern, Hpost.
Qed.

Lemma parseTestOutput_only_execTime_witness :
  parseTestOutput Int32
    (go "pass timing\n  Total Execution Time: 1.5 seconds (2.5 wall clock)\nend")
  = Some (mkStats 0 0 f1_5 f2_5, []).
Proof.
  apply (parseTestOutput_only_execTime Int32 _ ["pass timing"] ["end"]
           "  Total Execution Time: 1.5 seconds (2.5 wall clock)"
           "Total Execution Time: 1.5 seconds (2.5 wall clock)" "1.5" "2.5");
    try reflexivity; repeat constructor.
Defined.

(** C8: on every diagnostic text the extractor comes to an end and
    returns a record; it never panics. *)
Theorem parseTestOutput_total (w : intWidth) (stderr : string) :
  exists (stats : Stats) (logs : list LogEntry),
    parseTestOutput w stderr = Some (stats, logs).
Proof. exact (parseTestOutput_returns w stderr). Qed.




(* ================================================================== *)
(** * The statistics extractor: what else the code shows *)

Section ExtractorMore.

Variable w : intWidth.

Lemma not_relevant (line : string) : relevant line = false -> noPattern line.
Proof.
  unfold relevant, noPattern. intros H.
  apply orb_false_elim in H as [H H3]. apply orb_false_elim in H as [H1 H2]. auto.
Qed.

Lemma forLines_filter (lines : list string) :
  forall st, forLines w lines st = forLines w (filter relevant lines) st.
Proof.
  induction lines as [|line lines IH]; intros st; [reflexivity|].
  cbn [filter]. destruct (relevant line) eqn:Hr.
  - rewrite !forLines_cons. destruct (after (loopBody w line st)); auto.
  - rewrite forLines_cons, (loopBody_noPattern w line st (not_relevant line Hr)). apply IH.
Qed.

(** What one pass of the body does to the four fields: each keeps its
    value or takes what the conversion of the text captured on this
    line returned. *)
Lemma loopBody_fields (line : string) (st : LoopState) :
  exists st1, after (loopBody w line st) = Some st1 /\
    (AsmInstrs (fst st1) = AsmInstrs (fst st) \/
     exists m d, FindStringSubmatch asmInstrsRegexp (TrimSpace line) = [m; d] /\
                 AsmInstrs (fst st1) = fst (Atoi w d)) /\
    (StackSpace (fst st1) = StackSpace (fst st) \/
     exists m d, FindStringSubmatch stackSpaceRegexp (TrimSpace line) = [m; d] /\
                 StackSpace (fst st1) = fst (Atoi w d)) /\
    (Seconds (fst st1) = Seconds (fst st) \/
     exists m a b, FindStringSubmatch execTimeRegexp (TrimSpace line) = [m; a; b] /\
                   Seconds (fst st1) = fst (Atof64 a)) /\
    (WallSeconds (fst st1) = WallSeconds (fst st) \/
     exists m a b, FindStringSubmatch execTimeRegexp (TrimSpace line) = [m; a; b] /\
                   WallSeconds (fst st1) = fst (Atof64 b)).
Proof.
  rewrite loopBody_eq.
  destruct (asmInstrsBlock_cases w (TrimSpace line) st)
    as [[Hm1 Hb1] | (m1 & d1 & Hf1 & [(v1 & Ha1 & Hb1) | (v1 & e1 & lg1 & Ha1 & Hb1)])];
    rewrite Hb1; clear Hb1;
    try match goal with
        | |- context [stackSpaceBlock w (TrimSpace line) ?s] =>
            destruct (stackSpaceBlock_cases w (TrimSpace line) s)
              as [[Hm2 Hb2] | (m2 & d2 & Hf2 &
                    [(v2 & Ha2 & Hb2) | (v2 & e2 & lg2 & Ha2 & Hb2)])];
            rewrite Hb2; clear Hb2
        end;
    try match goal with
        | |- context [execTimeBlock (TrimSpace line) ?s] =>
            destruct (execTimeBlock_cases (TrimSpace line) s)
              as [[Hm3 Hb3] | (m3 & a3 & b3 & Hf3 &
                    [(x3 & y3 & Ha3 & Hc3 & Hb3) | [(x3 & e3 & lg3 & Ha3 & Hb3)
                                                   | (x3 & y3 & e3 & lg3 & Ha3 & Hc3 & Hb3)]])];
            rewrite Hb3; clear Hb3
        end;
    (eexists; split; [reflexivity|]); cbn [fst snd];
    repeat match goal with
           | H : Atoi w _ = _ |- _ => apply (f_equal fst) in H; cbn [fst] in H
           | H : Atof64 _ = _ |- _ => apply (f_equal fst) in H; cbn [fst] in H
           end;
    unfold setAsmInstrs, setStackSpace, setSeconds, setWallSeconds;
    cbn [AsmInstrs StackSpace Seconds WallSeconds];
    repeat split; first [left; reflexivity | right; eauto 6].
Qed.

(** ** What the groups capture *)

Lemma matches_caps (re : Regexp) (s m : string) (caps : list string) :
  matches re s m caps -> Forall2 run (capClasses re) caps.
Proof. induction 1; simpl; auto. Qed.

Lemma found_caps (re : Regexp) (s m : string) (caps : list string) :
  FindStringSubmatch re s = m :: caps -> Forall2 run (capClasses re) caps.
Proof.
  unfold FindStringSubmatch. destruct (search re s) as [[m1 c1]|] eqn:H; [|discriminate].
  intros E. inversion E; subst.
  destruct (search_leftmost _ _ _ _ H) as (pre & t & _ & M & _).
  eapply matches_caps; eauto.
Qed.

Lemma found_digits (re : Regexp) (s m d : string) :
  capClasses re = [digit] -> FindStringSubmatch re s = [m; d] -> run digit d.
Proof.
  intros Hc H. apply found_caps in H. rewrite Hc in H.
  inversion H; subst. assumption.
Qed.

Lemma found_times (s m a b : string) :
  FindStringSubmatch execTimeRegexp s = [m; a; b] -> run digitOrDot a /\ run digitOrDot b.
Proof.
  intros H. apply found_caps in H. simpl in H.
  inversion H as [|? ? ? ? Ha H1]; subst. inversion H1; subst. auto.
Qed.

(** ** The range of [Atoi] *)

Lemma classMem_digit (c : ascii) : classMem digit c = isDigit c.
Proof.
  unfold classMem, digit. simpl. rewrite orb_false_r. unfold isDigit.
  destruct (between "0" "9" c); reflexivity.
Qed.

Lemma digitVal_range (c : ascii) : isDigit c = true -> 0 <= digitVal c <= 9.
Proof.
  unfold isDigit, between, digitVal. intros H. apply andb_prop in H as [H1 H2].
  apply Z.leb_le in H1, H2. change (code "0") with 48 in *. change (code "9") with 57 in *.
  lia.
Qed.

Lemma digitsValue_digits (d : string) :
  allIn digit d = true ->
  forall acc, 0 <= acc -> exists n, digitsValue acc d = Some n /\ acc <= n.
Proof.
  induction d as [|c d IH]; simpl; intros H acc Hacc.
  - exists acc. split; [reflexivity|lia].
  - apply andb_prop in H as [Hc Hd]. rewrite classMem_digit in Hc. rewrite Hc.
    pose proof (digitVal_range c Hc) as Hv.
    destruct (IH Hd (acc * 10 + digitVal c)) as (n & Hn & Hle); [lia|].
    exists n. split; [exact Hn|lia].
Qed.

Lemma digit_not_sign (c : ascii) :
  isDigit c = true -> Ascii.eqb c "+" = false /\ Ascii.eqb c "-" = false.
Proof.
  intros H. split.
  - destruct (Ascii.eqb c "+") eqn:E; [|reflexivity].
    apply Ascii.eqb_eq in E. subst. discriminate.
  - destruct (Ascii.eqb c "-") eqn:E; [|reflexivity].
    apply Ascii.eqb_eq in E. subst. discriminate.
Qed.

Lemma Atoi64_digits (d : string) :
  run digit d -> 0 <= fst (Atoi64 d) <= 2 ^ 63 - 1.
Proof.
  intros [Hne Hall]. destruct d as [|c d]; [contradiction|].
  assert (Hc : isDigit c = true).
  { simpl in Hall. apply andb_prop in Hall as [Hc _]. now rewrite classMem_digit in Hc. }
  destruct (digit_not_sign c Hc) as [Hp Hm].
  destruct (digitsValue_digits _ Hall 0) as (n & Hn & Hle); [lia|].
  unfold Atoi64. rewrite Hp, Hm. cbn [orb negb andb]. unfold Atoui64. rewrite Hn.
  destruct (Z.ltb_spec n (2 ^ 64)); cbn [fst snd].
  - destruct (Z.leb_spec (2 ^ 63) n); cbn [fst]; lia.
  - change (2 ^ 63 <=? 2 ^ 64 - 1) with true. cbn [fst]. lia.
Qed.

(** [Atoi] never leaves the range of [int], whatever it reads. *)
Lemma Atoi_clamps (s : string) : - 2 ^ (IntSize w - 1) <= fst (Atoi w s) <= maxInt w.
Proof.
  unfold Atoi, maxInt.
  assert (Hb : 0 < 2 ^ (IntSize w - 1)) by (destruct w; reflexivity).
  destruct (Atoi64 s) as [i [[n []]|]]; cbn [fst];
    try lia;
    destruct (Z.ltb_spec i (- 2 ^ (IntSize w - 1))); cbn [fst]; try lia;
    destruct (Z.leb_spec (2 ^ (IntSize w - 1)) i); cbn [fst]; lia.
Qed.

Lemma Atoi_digits (d : string) : run digit d -> 0 <= fst (Atoi w d) <= maxInt w.
Proof.
  intros Hd. split; [|apply Atoi_clamps].
  pose proof (Atoi64_digits d Hd) as [H0 _].
  assert (Hb : 0 < 2 ^ (IntSize w - 1)) by (destruct w; reflexivity).
  unfold Atoi. destruct (Atoi64 d) as [i [[n []]|]]; cbn [fst] in *;
    try lia;
    destruct (Z.ltb_spec i (- 2 ^ (IntSize w - 1))); cbn [fst]; try lia;
    destruct (Z.leb_spec (2 ^ (IntSize w - 1)) i); cbn [fst]; lia.
Qed.

(** ** The sign of [Atof64] on digits and points *)

Lemma shr_1_nonneg (mrs : shr_record) : 0 <= shr_m mrs -> 0 <= shr_m (shr_1 mrs).
Proof.
  destruct mrs as [m r s]. destruct m as [|p|p]; simpl; intros H; try lia;
    destruct p; simpl; lia.
Qed.

Lemma iter_pos_shr_1_nonneg (p : positive) :
  forall mrs, 0 <= shr_m mrs -> 0 <= shr_m (iter_pos shr_1 p mrs).
Proof.
  induction p as [p IH|p IH|]; simpl; intros mrs H; auto using shr_1_nonneg.
Qed.

Lemma shr_nonneg (mrs : shr_record) (e n : Z) :
  0 <= shr_m mrs -> 0 <= shr_m (fst (shr mrs e n)).
Proof. destruct n; simpl; auto using iter_pos_shr_1_nonneg. Qed.

Lemma shr_fexp_nonneg (m e : Z) (l : location) :
  0 <= m -> 0 <= shr_m (fst (shr_fexp prec emax m e l)).
Proof.
  intros H. unfold shr_fexp. apply shr_nonneg. destruct l as [|[]]; exact H.
Qed.

Lemma round_nearest_even_nonneg (m : Z) (l : location) :
  0 <= m -> 0 <= round_nearest_even m l.
Proof. destruct l as [|[]]; simpl; try destruct (Z.even m); lia. Qed.

(** Rounding a magnitude that is not negative gives the sign asked
    for, and no NaN. *)
Lemma binary_round_aux_nonneg (mx ex : Z) (lx : location) :
  0 <= mx -> nonNegative64 (binary_round_aux prec emax false mx ex lx) = true.
Proof.
  intros H. unfold binary_round_aux.
  pose proof (shr_fexp_nonneg mx ex lx H) as H1.
  destruct (shr_fexp prec emax mx ex lx) as [mrs1 e1]. cbn [fst] in H1.
  pose proof (shr_fexp_nonneg _ e1 loc_Exact
                (round_nearest_even_nonneg _ (loc_of_shr_record mrs1) H1)) as H2.
  destruct (shr_fexp prec emax
              (round_nearest_even (shr_m mrs1) (loc_of_shr_record mrs1)) e1 loc_Exact)
    as [mrs2 e2].
  cbn [fst] in H2. destruct (shr_m mrs2) as [|p|p]; [reflexivity| |lia].
  destruct (e2 <=? emax - prec); reflexivity.
Qed.

Lemma div_eucl_quotient (a b q r : Z) : Z.div_eucl a b = (q, r) -> q = a / b.
Proof. intros H. unfold Z.div. rewrite H. reflexivity. Qed.

Lemma decimalToFloat64_nonneg (d : decimal) :
  neg d = false -> nonNegative64 (decimalToFloat64 d) = true.
Proof.
  intros Hn. unfold decimalToFloat64. rewrite Hn.
  destruct (mant d) as [|m|m]; try reflexivity.
  destruct (0 <=? exp10 d) eqn:He.
  - apply Z.leb_le in He.
    assert (Hp : 0 < Zpos m * 10 ^ exp10 d)
      by (apply Z.mul_pos_pos; [lia|apply Z.pow_pos_nonneg; lia]).
    unfold binary_normalize. destruct (Zpos m * 10 ^ exp10 d) as [|p|p]; try lia.
    unfold binary_round.
    destruct (shl_align p 0 (fexp prec emax (Zpos (digits2_pos p) + 0))) as [mz ez].
    apply binary_round_aux_nonneg. lia.
  - unfold SFdiv. cbn [xorb].
    destruct (SFdiv_core_binary prec emax (Zpos m) 0 (Zpos (Z.to_pos (10 ^ (- exp10 d)))) 0)
      as [[mz ez] lz] eqn:Hd.
    apply binary_round_aux_nonneg.
    unfold SFdiv_core_binary in Hd.
    match type of Hd with
    | (let '(q, r) := Z.div_eucl ?a ?b in _) = _ =>
        destruct (Z.div_eucl a b) as [q r] eqn:Hq;
        assert (Ha : 0 <= a)
    end.
    { match goal with
      | |- 0 <= match ?s with _ => _ end =>
          destruct s; try lia; apply Z.shiftl_nonneg; lia
      end. }
    inversion Hd; subst. rewrite (div_eucl_quotient _ _ _ _ Hq).
    apply Z.div_pos; lia.
Qed.

(** A byte of [[0-9.]] is neither a sign nor the first letter of the
    names of the special values. *)
Lemma digitOrDot_plain (c : ascii) :
  classMem digitOrDot c = true ->
  Ascii.eqb c "-" = false /\
  Ascii.eqb (lower c) (lower "n") = false /\ Ascii.eqb (lower c) (lower "-") = false /\
  Ascii.eqb (lower c) (lower "+") = false /\ Ascii.eqb (lower c) (lower "i") = false.
Proof.
  destruct c as [[] [] [] [] [] [] [] []]; intros H;
    first [discriminate H | repeat split; reflexivity].
Qed.

Lemma special_digitOrDot (c : ascii) (s : string) :
  classMem digitOrDot c = true -> special (String c s) = None.
Proof.
  intros H. destruct (digitOrDot_plain c H) as (_ & Hn & Hm & Hp & Hi).
  unfold special. cbn [equalIgnoreCase]. rewrite Hn, Hm, Hp, Hi. reflexivity.
Qed.

Lemma readFloat_sign (c : ascii) (s : string) (d : decimal) :
  readFloat (String c s) = Some d -> neg d = Ascii.eqb c "-".
Proof.
  unfold readFloat.
  destruct (readDigits _ 0 0 false false) as [[[[m frac] [|]] s2]|]; try discriminate.
  destruct (readExponent s2) as [e|]; simpl; intros H; inversion H; reflexivity.
Qed.

Lemma Atof64_digitOrDot (a : string) :
  run digitOrDot a -> nonNegative64 (fst (Atof64 a)) = true.
Proof.
  intros [Hne Hall]. destruct a as [|c a]; [contradiction|].
  simpl in Hall. apply andb_prop in Hall as [Hc _].
  unfold Atof64. rewrite (special_digitOrDot c a Hc).
  destruct (readFloat (String c a)) as [d|] eqn:Hr; [|reflexivity].
  assert (Hd : nonNegative64 (decimalToFloat64 d) = true).
  { apply decimalToFloat64_nonneg. rewrite (readFloat_sign _ _ _ Hr).
    apply (digitOrDot_plain c Hc). }
  destruct (decimalToFloat64 d); exact Hd.
Qed.

(** ** Invariants of the loop *)

Lemma forLines_invariant (P : Stats -> Prop) :
  (forall line st st1, P (fst st) -> after (loopBody w line st) = Some st1 -> P (fst st1)) ->
  forall lines st st1, P (fst st) -> forLines w lines st = Some st1 -> P (fst st1).
Proof.
  intros Hstep. induction lines as [|line lines IH]; intros st st1 H0 H.
  - inversion H; subst. exact H0.
  - rewrite forLines_cons in H.
    destruct (after (loopBody w line st)) as [st2|] eqn:E; [|discriminate].
    eapply IH; [|exact H]. eapply Hstep; eauto.
Qed.

Lemma int_cases (re : Regexp) (line : string) :
  groups re = 1%nat ->
  intParses w re line \/
  exists m d v e, FindStringSubmatch re line = [m; d] /\ Atoi w d = (v, Some e).
Proof.
  intros Hg. destruct (MatchString re line) eqn:Hm; [|left; left; exact Hm].
  destruct (one_group re line Hg Hm) as (m & d & Hf).
  destruct (Atoi w d) as [v [e|]] eqn:Ha.
  - right. exists m, d, v, e. auto.
  - left. right. exists m, d, v. auto.
Qed.

Lemma times_cases (line : string) :
  timesParse line \/
  (exists m a b x e,
      FindStringSubmatch execTimeRegexp line = [m; a; b] /\ Atof64 a = (x, Some e)) \/
  (exists m a b x y e,
      FindStringSubmatch execTimeRegexp line = [m; a; b] /\
      Atof64 a = (x, None) /\ Atof64 b = (y, Some e)).
Proof.
  destruct (MatchString execTimeRegexp line) eqn:Hm; [|left; left; exact Hm].
  destruct (two_groups execTimeRegexp line eq_refl Hm) as (m & a & b & Hf).
  destruct (Atof64 a) as [x [e|]] eqn:Ha.
  - right; left. exists m, a, b, x, e. auto.
  - destruct (Atof64 b) as [y [e|]] eqn:Hb.
    + right; right. exists m, a, b, x, y, e. auto.
    + left. right. exists m, a, b, x, y. auto.
Qed.

(** On a line the log grows by the warning that the line is due, and
    by nothing when no conversion fails on it. *)
Lemma loopBody_log (line : string) (st : LoopState) :
  exists st1, after (loopBody w line st) = Some st1 /\
    ((quiet w line /\ snd st1 = snd st) \/
     exists l, warningOf w line l /\ snd st1 = (snd st ++ [l])%list).
Proof.
  rewrite loopBody_eq.
  destruct (int_cases asmInstrsRegexp (TrimSpace line) eq_refl)
    as [P1 | (m & d & v & e & Hf & Ha)].
  2:{ unfold asmInstrsBlock. rewrite (found_match _ _ _ _ Hf), Hf. body_unfold. rewrite Ha.
      eexists. split; [reflexivity|]. right. eexists. split; [|reflexivity].
      left. exists m, d, v, e. repeat split; try assumption. }
  rewrite (asmInstrsBlock_passes w _ st P1).
  destruct (int_cases stackSpaceRegexp (TrimSpace line) eq_refl)
    as [P2 | (m & d & v & e & Hf & Ha)].
  2:{ unfold stackSpaceBlock. rewrite (found_match _ _ _ _ Hf), Hf. body_unfold. rewrite Ha.
      eexists. split; [reflexivity|]. right. eexists. split; [|reflexivity].
      right; left. exists m, d, v, e. repeat split; try assumption. }
  rewrite (stackSpaceBlock_passes w _ _ P2).
  destruct (times_cases (TrimSpace line))
    as [P3 | [(m & a & b & x & e & Hf & Ha) | (m & a & b & x & y & e & Hf & Ha & Hb)]].
  - assert (Hq : quiet w line) by (repeat split; assumption).
    destruct P3 as [Hm | (m & a & b & x & y & Hf & Ha & Hb)].
    + unfold execTimeBlock. rewrite Hm. eexists. split; [reflexivity|]. left. auto.
    + unfold execTimeBlock. rewrite (found_match _ _ _ _ Hf), Hf. body_unfold. rewrite Ha.
      body_unfold. rewrite Hb. eexists. split; [reflexivity|]. left. auto.
  - unfold execTimeBlock. rewrite (found_match _ _ _ _ Hf), Hf. body_unfold. rewrite Ha.
    eexists. split; [reflexivity|]. right. eexists. split; [|reflexivity].
    right; right; left. exists m, a, b, x, e. repeat split; try assumption.
  - unfold execTimeBlock. rewrite (found_match _ _ _ _ Hf), Hf. body_unfold. rewrite Ha.
    body_unfold. rewrite Hb.
    eexists. split; [reflexivity|]. right. eexists. split; [|reflexivity].
    right; right; right. exists m, a, b, x, y, e. repeat split; try assumption.
Qed.

Lemma forLines_log (lines : list string) :
  forall st st1, forLines w lines st = Some st1 ->
    exists logs, snd st1 = (snd st ++ logs)%list /\ warningsOf w lines logs.
Proof.
  induction lines as [|line lines IH]; intros st st1 H.
  - inversion H; subst. exists []. rewrite app_nil_r. split; [reflexivity|constructor].
  - rewrite forLines_cons in H.
    destruct (loopBody_log line st) as (st2 & E & Hl). rewrite E in H.
    destruct (IH _ _ H) as (logs & Hs & Hw).
    destruct Hl as [[Hq Hl] | (l & Hwl & Hl)]; rewrite Hl in Hs.
    + exists logs. split; [exact Hs|]. now apply warnings_skip.
    + exists (l :: logs). rewrite <- app_assoc in Hs. split; [exact Hs|].
      now apply warnings_cons.
Qed.

Lemma warningsOf_length (lines : list string) (logs : list LogEntry) :
  warningsOf w lines logs -> (List.length logs <= List.length lines)%nat.
Proof. induction 1; simpl; lia. Qed.

(** ** The properties *)

(** X1: the lines that match no pattern do not count: two diagnostic
    texts whose lines that match some pattern are the same, in the
    same order, give the same record and the same log. *)
Theorem parseTestOutput_relevant_lines (s1 s2 : string) :
  filter relevant (Split s1 NL) = filter relevant (Split s2 NL) ->
  parseTestOutput w s1 = parseTestOutput w s2.
Proof.
  intros H. unfold parseTestOutput.
  rewrite (forLines_filter (Split s1 NL)), (forLines_filter (Split s2 NL)), H. reflexivity.
Qed.

(** X2: each field has its own default: a field whose pattern matches
    no line is zero in the result, whatever the other patterns find
    and whether or not their numbers parse. *)
Theorem parseTestOutput_field_default (stderr : string) :
  exists stats logs, parseTestOutput w stderr = Some (stats, logs) /\
    (Forall (fun l => MatchString asmInstrsRegexp (TrimSpace l) = false) (Split stderr NL) ->
     AsmInstrs stats = 0) /\
    (Forall (fun l => MatchString stackSpaceRegexp (TrimSpace l) = false) (Split stderr NL) ->
     StackSpace stats = 0) /\
    (Forall (fun l => MatchString execTimeRegexp (TrimSpace l) = false) (Split stderr NL) ->
     Seconds stats = zero64 /\ WallSeconds stats = zero64).
Proof.
  destruct (parseTestOutput_returns w stderr) as (stats & logs & H).
  exists stats, logs. split; [exact H|]. unfold parseTestOutput in H.
  split; [|split]; intros Hn.
  - exact (forLines_keeps_AsmInstrs w _ Hn _ _ H).
  - exact (forLines_keeps_StackSpace w _ Hn _ _ H).
  - exact (forLines_keeps_times w _ Hn _ _ H).
Qed.

(** X3: the two counts of the record are never negative and never
    beyond the largest [int], on any text: the pattern captures digits
    only, and a number too large is cut to the largest [int]. *)
Theorem parseTestOutput_counts_in_range (stderr : string) :
  exists stats logs, parseTestOutput w stderr = Some (stats, logs) /\
    0 <= AsmInstrs stats <= maxInt w /\ 0 <= StackSpace stats <= maxInt w.
Proof.
  destruct (parseTestOutput_returns w stderr) as (stats & logs & H).
  exists stats, logs. split; [exact H|]. unfold parseTestOutput in H.
  assert (Hm : 0 <= maxInt w) by (destruct w; discriminate).
  apply (forLines_invariant
           (fun st => 0 <= AsmInstrs st <= maxInt w /\ 0 <= StackSpace st <= maxInt w))
    with (lines := Split stderr NL) (st := (newStats, [])) (st1 := (stats, logs));
    [|simpl; lia|exact H].
  intros line st st1 [Ha Hs] E.
  destruct (loopBody_fields line st) as (st2 & E2 & F1 & F2 & _).
  rewrite E in E2. inversion E2; subst st2. split.
  - destruct F1 as [-> | (m & d & Hf & ->)]; [exact Ha|].
    apply Atoi_digits. eapply found_digits; [|exact Hf]. reflexivity.
  - destruct F2 as [-> | (m & d & Hf & ->)]; [exact Hs|].
    apply Atoi_digits. eapply found_digits; [|exact Hf]. reflexivity.
Qed.

(** X4: the two times of the record are never a NaN and never
    negative, on any text: each is [+0], a positive number or [+Inf]. *)
Theorem parseTestOutput_times_not_negative (stderr : string) :
  exists stats logs, parseTestOutput w stderr = Some (stats, logs) /\
    nonNegative64 (Seconds stats) = true /\ nonNegative64 (WallSeconds stats) = true.
Proof.
  destruct (parseTestOutput_returns w stderr) as (stats & logs & H).
  exists stats, logs. split; [exact H|]. unfold parseTestOutput in H.
  apply (forLines_invariant
           (fun st => nonNegative64 (Seconds st) = true /\
                      nonNegative64 (WallSeconds st) = true))
    with (lines := Split stderr NL) (st := (newStats, [])) (st1 := (stats, logs));
    [|simpl; auto|exact H].
  intros line st st1 [Ha Hs] E.
  destruct (loopBody_fields line st) as (st2 & E2 & _ & _ & F3 & F4).
  rewrite E in E2. inversion E2; subst st2. split.
  - destruct F3 as [-> | (m & a & b & Hf & ->)]; [exact Ha|].
    apply Atof64_digitOrDot. apply (found_times _ _ _ _ Hf).
  - destruct F4 as [-> | (m & a & b & Hf & ->)]; [exact Hs|].
    apply Atof64_digitOrDot. apply (found_times _ _ _ _ Hf).
Qed.

(** X5: the log of the extractor holds, in the order of the lines, one
    warning for each line on which a conversion fails, and nothing
    else.  The warning is for the first conversion that fails on the
    line, in the order AsmInstrs, StackSpace, Seconds, WallSeconds: it
    names that field, the trimmed line, the text of the group that the
    pattern of the field captured on the line, and the error.  A line
    on which no conversion fails adds nothing; the entry of the
    branches that test the length of the slice of matches is never
    written. *)
Theorem parseTestOutput_log (stderr : string) :
  exists stats logs, parseTestOutput w stderr = Some (stats, logs) /\
    warningsOf w (Split stderr NL) logs /\
    (List.length logs <= List.length (Split stderr NL))%nat.
Proof.
  destruct (parseTestOutput_returns w stderr) as (stats & logs & H).
  exists stats, logs. split; [exact H|]. unfold parseTestOutput in H.
  destruct (forLines_log _ _ _ H) as (logs1 & Hs & Hw). simpl in Hs. subst logs1.
  split; [exact Hw|]. exact (warningsOf_length _ _ Hw).
Qed.

End ExtractorMore.

Lemma parseTestOutput_relevant_lines_witness :
  parseTestOutput Int32 (go "llc: note\n7 asm-printer - Number of machine instrs printed\n")
  = parseTestOutput Int32 "7 asm-printer - Number of machine instrs printed".
Proof. apply parseTestOutput_relevant_lines. reflexivity. Defined.

Lemma parseTestOutput_field_default_witness :
  exists stats logs,
    parseTestOutput Int32 (go "Total Execution Time: 1.5 seconds (2.5 wall clock)\nend")
    = Some (stats, logs) /\ AsmInstrs stats = 0 /\ StackSpace stats = 0.
Proof.
  destruct (parseTestOutput_field_default Int32
              (go "Total Execution Time: 1.5 seconds (2.5 wall clock)\nend"))
    as (stats & logs & H & Ha & Hs & _).
  exists stats, logs. split; [exact H|]. split.
  - apply Ha. repeat constructor.
  - apply Hs. repeat constructor.
Defined.

(* ================================================================== *)
(** * Facts about the driver *)

Section DriverFacts.

Context {E : Env}.

Lemma stdoutOf_app (a b : list Event) :
  stdoutOf (a ++ b) = stdoutOf a ++ stdoutOf b.
Proof.
  induction a as [|e a IH]; [reflexivity|].
  destruct e as [[|] t| | |]; simpl; rewrite IH; auto using append_assoc.
Qed.

Lemma startedPaths_app (a b : list Event) :
  startedPaths (a ++ b) = (startedPaths a ++ startedPaths b)%list.
Proof.
  induction a as [|e a IH]; [reflexivity|].
  destruct e as [| | |[]]; simpl; rewrite IH; reflexivity.
Qed.

Lemma calls_app (a b : list Event) : calls (a ++ b) = (calls a ++ calls b)%list.
Proof.
  induction a as [|e a IH]; [reflexivity|].
  destruct e; simpl; rewrite IH; reflexivity.
Qed.

Lemma stdoutOf_logEvents (logs : list LogEntry) : stdoutOf (logEvents logs) = EmptyString.
Proof. induction logs; simpl; auto. Qed.

Lemma startedPaths_logEvents (logs : list LogEntry) : startedPaths (logEvents logs) = [].
Proof. induction logs; simpl; auto. Qed.

Lemma follows_trans (s s1 s2 : Sys) (p1 p2 : list string) :
  follows s s1 p1 -> follows s1 s2 p2 -> follows s s2 (p1 ++ p2)%list.
Proof.
  intros (e1 & T1 & O1 & P1) (e2 & T2 & O2 & P2). exists (e1 ++ e2)%list.
  rewrite T2, T1, <- app_assoc, stdoutOf_app, startedPaths_app, O1, O2, P1, P2. auto.
Qed.

Lemma follows_logged (s : Sys) (es : list Event) (paths : list string) :
  stdoutOf es = EmptyString -> startedPaths es = paths -> follows s (logged s es) paths.
Proof. intros. exists es. auto. Qed.

Lemma follows_stdout (s s1 : Sys) (paths : list string) :
  follows s s1 paths -> stdoutOf (trace s1) = stdoutOf (trace s).
Proof. intros (es & -> & O & _). rewrite stdoutOf_app, O. apply append_empty_r. Qed.

Lemma follows_started (s s1 : Sys) (paths : list string) :
  follows s s1 paths -> startedPaths (trace s1) = (startedPaths (trace s) ++ paths)%list.
Proof. intros (es & -> & _ & P). rewrite startedPaths_app, P. reflexivity. Qed.

(** The process runner always returns to its caller; it writes nothing
    to standard output and starts the executable of its toolchain at
    most once, and exactly once when it succeeds. *)
Lemma runTest_returns (toolchain test : string) (s : Sys) :
  exists txt err s1,
    runTest toolchain test s = Ok (txt, err) s1 /\
    (follows s s1 [] \/ follows s s1 [llc toolchain]) /\
    (err = None -> follows s s1 [llc toolchain]).
Proof.
  unfold runTest, andThen, sys, pure, exec_Command. simpl.
  repeat match goal with
         | |- context [os ?c ?w] => destruct (os c w) as [[?|?] ?]; simpl
         end;
    do 3 eexists; (split; [reflexivity|]);
    (split; [|try discriminate]);
    try (left; eexists; split; [simpl; rewrite <- ?app_assoc; reflexivity|];
         split; reflexivity);
    try (right; eexists; split; [simpl; rewrite <- ?app_assoc; reflexivity|];
         split; reflexivity);
    try (intros _; eexists; split; [simpl; rewrite <- ?app_assoc; reflexivity|];
         split; reflexivity).
Qed.

(** Inside the driver the extractor returns its record and hands its
    entries to the logger. *)
Lemma parse_returns (txt : string) (s : Sys) :
  exists st logs, parseTestOutput width txt = Some (st, logs) /\
                  parse txt s = Ok st (logged s (logEvents logs)).
Proof.
  destruct (parseTestOutput_returns width txt) as (st & logs & H).
  exists st, logs. split; [exact H|]. unfold parse. rewrite H. reflexivity.
Qed.

Lemma runAndParse_cases (toolchain test : string) (s : Sys) :
  (exists txt s1 st logs,
      runTest toolchain test s = Ok (txt, None) s1 /\
      parseTestOutput width txt = Some (st, logs) /\
      runAndParse toolchain test s = Ok (Some st, None) (logged s1 (logEvents logs)) /\
      follows s (logged s1 (logEvents logs)) [llc toolchain]) \/
  (exists txt e s1,
      runTest toolchain test s = Ok (txt, Some e) s1 /\
      runAndParse toolchain test s = Ok (None, Some e) s1 /\
      (follows s s1 [] \/ follows s s1 [llc toolchain])).
Proof.
  destruct (runTest_returns toolchain test s) as (txt & err & s1 & Hr & Hf & Hok).
  unfold runAndParse, andThen. rewrite Hr. destruct err as [e|].
  - right. exists txt, e, s1. auto.
  - left. destruct (parse_returns txt s1) as (st & logs & Hp & Hq).
    exists txt, s1, st, logs. rewrite Hq. repeat split; auto.
    rewrite <- (app_nil_r [llc toolchain]).
    eapply follows_trans; [apply Hok; reflexivity|].
    apply follows_logged; [apply stdoutOf_logEvents|apply startedPaths_logEvents].
Qed.

Lemma Sprintf_fatal (format name toolchain test e : string) :
  format = "runTest(" ++ name ++ "=%s, test=%s): %v" ->
  name = "t1" \/ name = "t2" ->
  Sprintf format [AString toolchain; AString test; AError e]
  = fatalMessage name toolchain test e.
Proof.
  intros -> [-> | ->]; unfold fatalMessage; simpl; rewrite append_empty_r; reflexivity.
Qed.

(** The comparison of the two toolchains: both runs succeed and the two
    records come back, or the first run fails, or the first succeeds
    and the second fails; a failure ends the program with status 1
    behind a message that names the toolchain and the test. *)
Lemma runBoth_cases (t1 t2 test : string) (s : Sys) :
  (exists a b s1 s2,
      runAndParse t1 test s = Ok (Some a, None) s1 /\
      runAndParse t2 test s1 = Ok (Some b, None) s2 /\
      runBoth t1 t2 test s = Ok ((Some a, Some b), None) s2 /\
      follows s s2 [llc t1; llc t2]) \/
  (exists txt e s1,
      runTest t1 test s = Ok (txt, Some e) s1 /\
      runBoth t1 t2 test s = Exited 1 (logged s1 [Log (fatalMessage "t1" t1 test e)]) /\
      (follows s s1 [] \/ follows s s1 [llc t1])) \/
  (exists a s1 txt e s2,
      runAndParse t1 test s = Ok (Some a, None) s1 /\
      runTest t2 test s1 = Ok (txt, Some e) s2 /\
      runBoth t1 t2 test s = Exited 1 (logged s2 [Log (fatalMessage "t2" t2 test e)]) /\
      (follows s s2 [llc t1] \/ follows s s2 [llc t1; llc t2])).
Proof.
  unfold runBoth, andThen.
  destruct (runAndParse_cases t1 test s)
    as [(txt1 & s1 & a & logs1 & Hr1 & _ & Hp1 & Hf1) | (txt1 & e1 & s1 & Hr1 & Hp1 & Hf1)].
  - rewrite Hp1. unfold pure.
    destruct (runAndParse_cases t2 test (logged s1 (logEvents logs1)))
      as [(txt2 & s2 & b & logs2 & Hr2 & _ & Hp2 & Hf2) | (txt2 & e2 & s2 & Hr2 & Hp2 & Hf2)].
    + left. exists a, b, (logged s1 (logEvents logs1)), (logged s2 (logEvents logs2)).
      rewrite Hp2. repeat split; auto.
      change [llc t1; llc t2] with ([llc t1] ++ [llc t2])%list.
      eapply follows_trans; eassumption.
    + right; right. exists a, (logged s1 (logEvents logs1)), txt2, e2, s2.
      rewrite Hp2. unfold log_Fatalf, log_Printf, andThen, emit, os_Exit.
      rewrite (Sprintf_fatal _ "t2") by auto. repeat split; auto.
      destruct Hf2 as [Hf2 | Hf2]; [left|right].
      * rewrite <- (app_nil_r [llc t1]). eapply follows_trans; eassumption.
      * change [llc t1; llc t2] with ([llc t1] ++ [llc t2])%list.
        eapply follows_trans; eassumption.
  - right; left. exists txt1, e1, s1. rewrite Hp1.
    unfold log_Fatalf, log_Printf, andThen, emit, os_Exit.
    rewrite (Sprintf_fatal _ "t1") by auto. repeat split; auto.
Qed.

(** The record that [printStats] formats is the comparison line of the
    specification. *)
Lemma Sprintf_record (test : string) (a b : Stats) :
  Sprintf (go "%s\t%d\t%d\t%v\t%v\t%d\t%d\t%v\t%v\n")
    [AString (pathBase test);
     AInt (AsmInstrs a); AInt (StackSpace a); AFloat (Seconds a); AFloat (WallSeconds a);
     AInt (AsmInstrs b); AInt (StackSpace b); AFloat (Seconds b); AFloat (WallSeconds b)]
  = comparisonLine test a b.
Proof.
  unfold comparisonLine, statsFields. cbn [app joinWith].
  repeat (rewrite append_assoc; cbn [append]). reflexivity.
Qed.

Lemma printStats_line (test : string) (a b : Stats) (s : Sys) :
  printStats test (Some a, Some b) s
  = Ok None (logged s [Write Stdout (comparisonLine test a b)]).
Proof.
  unfold printStats, andThen, deref, pure, Printf, emit. cbn [fst snd].
  rewrite Sprintf_record. reflexivity.
Qed.

Lemma Printf_running (test : string) (s : Sys) :
  Printf (go "Running test: %s\n") [AString test] s
  = Ok tt (logged s [Write Stdout (runningLine test)]).
Proof. reflexivity. Qed.

Lemma andThen_ok {A B : Type} (m : IO A) (k : A -> IO B) (s : Sys) (a : A) (s1 : Sys) :
  m s = Ok a s1 -> andThen m k s = k a s1.
Proof. unfold andThen. now intros ->. Qed.

Lemma andThen_exit {A B : Type} (m : IO A) (k : A -> IO B) (s : Sys) (status : Z) (s1 : Sys) :
  m s = Exited status s1 -> andThen m k s = Exited status s1.
Proof. unfold andThen. now intros ->. Qed.

Ltac io_ok H := rewrite (andThen_ok _ _ _ _ _ H); cbv beta iota.
Ltac io_exit H := rewrite (andThen_exit _ _ _ _ _ H).
Ltac io_pure := rewrite (andThen_ok (pure tt) _ _ tt _ eq_refl); cbv beta iota.

(** With its three flags given, [main] prints the line that announces
    the test, compares twice, and prints the record of the second
    comparison; a comparison that ends the program ends [main]. *)
Lemma main_after_flags (f : Flags) (s0 : Sys) :
  nonEmpty (test f) = true -> nonEmpty (t1 f) = true -> nonEmpty (t2 f) = true ->
  main f s0 =
  match runBoth (t1 f) (t2 f) (test f) (logged s0 [Write Stdout (runningLine (test f))]) with
  | Ok _ s2 =>
      match runBoth (t1 f) (t2 f) (test f) s2 with
      | Ok r2 s3 =>
          match fst r2 with
          | (Some a, Some b) =>
              Ok tt (logged s3 [Write Stdout (comparisonLine (test f) a b)])
          | _ => Crashed s3
          end
      | Exited status sx => Exited status sx
      | Crashed sx => Crashed sx
      end
  | Exited status sx => Exited status sx
  | Crashed sx => Crashed sx
  end.
Proof.
  intros H1 H2 H3. unfold main, checkArg. rewrite H1, H2, H3. cbn [negb].
  do 3 io_pure.
  io_ok (Printf_running (test f) s0).
  destruct (runBoth_cases (t1 f) (t2 f) (test f)
              (logged s0 [Write Stdout (runningLine (test f))]))
    as [(a & b & s1 & s2 & _ & _ & Hb & _) | [(txt & e & s1 & _ & Hb & _)
                                             | (a & s1 & txt & e & s2 & _ & _ & Hb & _)]];
    [io_ok Hb | io_exit Hb | io_exit Hb]; rewrite Hb; try reflexivity.
  io_pure.
  destruct (runBoth_cases (t1 f) (t2 f) (test f) s2)
    as [(a' & b' & s3 & s4 & _ & _ & Hc & _) | [(txt & e & s3 & _ & Hc & _)
                                               | (a' & s3 & txt & e & s4 & _ & _ & Hc & _)]];
    [io_ok Hc | io_exit Hc | io_exit Hc]; rewrite Hc; try reflexivity.
  io_pure. io_ok (printStats_line (test f) a' b' s4). reflexivity.
Qed.

Lemma nonEmpty_true (s : string) : s <> EmptyString -> nonEmpty s = true.
Proof. intros H. unfold nonEmpty. apply negb_true_iff, String.eqb_neq, H. Qed.

Lemma log_Fatalf_exits {A : Type} (format : string) (args : list arg) (s : Sys) :
  @log_Fatalf E A format args s = Exited 1 (logged s [Log (Sprintf format args)]).
Proof. reflexivity. Qed.

(** A flag that was not given: the message, the defaults, status 1, and
    nothing else. *)
Lemma checkArg_missing (name : string) (s : Sys) :
  checkArg name false s
  = Exited 1 (logged s [Write Stderr (name ++ " is not specified" ++ String NL EmptyString);
                        PrintDefaults]).
Proof.
  unfold checkArg, andThen, Fprintf, flag_PrintDefaults, emit, os_Exit, logged. simpl.
  rewrite <- app_assoc. reflexivity.
Qed.

Lemma runTest_follows (toolchain test txt : string) (err : option string) (s s1 : Sys) :
  runTest toolchain test s = Ok (txt, err) s1 ->
  follows s s1 [] \/ follows s s1 [llc toolchain].
Proof.
  intros H. destruct (runTest_returns toolchain test s) as (txt' & err' & s1' & Hr & Hf & _).
  rewrite H in Hr. inversion Hr; subst. exact Hf.
Qed.

Lemma runAndParse_fails (toolchain test txt e : string) (s s1 : Sys) :
  runTest toolchain test s = Ok (txt, Some e) s1 ->
  runAndParse toolchain test s = Ok (None, Some e) s1.
Proof. intros H. unfold runAndParse. io_ok H. reflexivity. Qed.

Lemma runAndParse_ok (toolchain test : string) (r : option Stats) (s s1 : Sys) :
  runAndParse toolchain test s = Ok (r, None) s1 ->
  (exists a, r = Some a) /\ follows s s1 [llc toolchain].
Proof.
  intros H.
  destruct (runAndParse_cases toolchain test s)
    as [(txt & s2 & a & logs & _ & _ & Hp & Hf) | (txt & e & s2 & _ & Hp & _)];
    rewrite H in Hp; inversion Hp; subst; eauto.
Qed.

Lemma runBoth_ok (t1 t2 test : string)
    (r : (option Stats * option Stats) * option string) (s s2 : Sys) :
  runBoth t1 t2 test s = Ok r s2 ->
  (exists a b, r = ((Some a, Some b), None)) /\ follows s s2 [llc t1; llc t2].
Proof.
  intros H.
  destruct (runBoth_cases t1 t2 test s)
    as [(a & b & s1 & s3 & _ & _ & Hb & Hf) | [(txt & e & s1 & _ & Hb & _)
                                              | (a & s1 & txt & e & s3 & _ & _ & Hb & _)]];
    rewrite H in Hb; inversion Hb; subst; eauto.
Qed.

Lemma runBoth_fails_first (t1 t2 test txt e : string) (s s1 : Sys) :
  runTest t1 test s = Ok (txt, Some e) s1 ->
  runBoth t1 t2 test s = Exited 1 (logged s1 [Log (fatalMessage "t1" t1 test e)]).
Proof.
  intros H. unfold runBoth. io_ok (runAndParse_fails _ _ _ _ _ _ H).
  io_exit (@log_Fatalf_exits unit "runTest(t1=%s, test=%s): %v"
             [AString t1; AString test; AError e] s1).
  rewrite (Sprintf_fatal _ "t1") by auto. reflexivity.
Qed.

Lemma runBoth_fails_second (t1 t2 test txt e : string) (r : option Stats) (s s1 s2 : Sys) :
  runAndParse t1 test s = Ok (r, None) s1 ->
  runTest t2 test s1 = Ok (txt, Some e) s2 ->
  runBoth t1 t2 test s = Exited 1 (logged s2 [Log (fatalMessage "t2" t2 test e)]).
Proof.
  intros H1 H2. unfold runBoth. io_ok H1. io_pure.
  io_ok (runAndParse_fails _ _ _ _ _ _ H2).
  io_exit (@log_Fatalf_exits unit "runTest(t2=%s, test=%s): %v"
             [AString t2; AString test; AError e] s2).
  rewrite (Sprintf_fatal _ "t2") by auto. reflexivity.
Qed.

Lemma follows_running (s0 s1 : Sys) (test : string) (paths : list string) :
  follows (logged s0 [Write Stdout (runningLine test)]) s1 paths ->
  stdoutOf (trace s1) = stdoutOf (trace s0) ++ runningLine test /\
  startedPaths (trace s1) = (startedPaths (trace s0) ++ paths)%list.
Proof.
  intros H. rewrite (follows_stdout _ _ _ H), (follows_started _ _ _ H). simpl.
  rewrite stdoutOf_app, startedPaths_app. simpl.
  rewrite append_empty_r, app_nil_r. auto.
Qed.

(* ================================================================== *)
(** * The driver: the claims *)

(** A flag that is missing ends [main] where it is checked. *)
Lemma main_missing_flag_exits (f : Flags) (s0 : Sys) (name : string) :
  firstMissing f = Some name ->
  main f s0
    = Exited 1 (logged s0 [Write Stderr (name ++ " is not specified" ++ String NL EmptyString);
                           PrintDefaults]).
Proof.
  intros H. unfold firstMissing in H. unfold main.
  destruct (nonEmpty (test f)); cbn [negb] in H.
  2:{ inversion H; subst. io_exit (checkArg_missing "-test" s0). reflexivity. }
  unfold checkArg at 1. cbn [negb]. io_pure.
  destruct (nonEmpty (t1 f)); cbn [negb] in H.
  2:{ inversion H; subst. io_exit (checkArg_missing "-t1" s0). reflexivity. }
  unfold checkArg at 1. cbn [negb]. io_pure.
  destruct (nonEmpty (t2 f)); cbn [negb] in H; [discriminate|].
  inversion H; subst. io_exit (checkArg_missing "-t2" s0). reflexivity.
Qed.

Lemma runAndParse_extracted (toolchain test : string) (a : Stats) (s s1 : Sys) :
  runAndParse toolchain test s = Ok (Some a, None) s1 -> extracted toolchain test s a s1.
Proof.
  intros H.
  destruct (runAndParse_cases toolchain test s)
    as [(txt & s2 & st & logs & Hr & Hq & Hp & _) | (txt & e & s2 & _ & Hp & _)];
    rewrite H in Hp; inversion Hp; subst.
  exists txt, s2, logs. auto.
Qed.

Lemma flags_given (f : Flags) :
  firstMissing f = None ->
  nonEmpty (test f) = true /\ nonEmpty (t1 f) = true /\ nonEmpty (t2 f) = true.
Proof.
  unfold firstMissing.
  destruct (nonEmpty (test f)); [|discriminate].
  destruct (nonEmpty (t1 f)); [|discriminate].
  destruct (nonEmpty (t2 f)); [|discriminate]. auto.
Qed.

(** What [main] writes to standard output, by the way it ends. *)
Lemma main_writes (f : Flags) (s0 : Sys) :
  match main f s0 with
  | Ok _ s1 =>
      firstMissing f = None /\
      exists r1 s2 sa a b s3,
        runBoth (t1 f) (t2 f) (test f) (logged s0 [Write Stdout (runningLine (test f))])
          = Ok r1 s2 /\
        extracted (t1 f) (test f) s2 a sa /\
        extracted (t2 f) (test f) sa b s3 /\
        s1 = logged s3 [Write Stdout (comparisonLine (test f) a b)] /\
        stdoutOf (trace s1)
          = stdoutOf (trace s0) ++ runningLine (test f) ++ comparisonLine (test f) a b
  | Exited status s1 =>
      (exists name,
          firstMissing f = Some name /\
          stdoutOf (trace s1) = stdoutOf (trace s0)) \/
      (firstMissing f = None /\
       (exists k name toolchain err s',
           runnerFails f (logged s0 [Write Stdout (runningLine (test f))])
             k name toolchain err s' /\
           s1 = logged s' [Log (fatalMessage name toolchain (test f) err)]) /\
       stdoutOf (trace s1) = stdoutOf (trace s0) ++ runningLine (test f))
  | Crashed _ => False
  end.
Proof.
  destruct (firstMissing f) as [name|] eqn:Hm.
  { rewrite (main_missing_flag_exits f s0 name Hm). left. exists name.
    split; [reflexivity|]. cbn [logged trace]. rewrite stdoutOf_app. cbn [stdoutOf].
    apply append_empty_r. }
  destruct (flags_given f Hm) as (H1 & H2 & H3).
  rewrite (main_after_flags f s0 H1 H2 H3).
  assert (Hlog : forall s m, stdoutOf (trace (logged s [Log m])) = stdoutOf (trace s)).
  { intros s m. cbn [logged trace]. rewrite stdoutOf_app. cbn [stdoutOf].
    apply append_empty_r. }
  destruct (runBoth_cases (t1 f) (t2 f) (test f)
              (logged s0 [Write Stdout (runningLine (test f))]))
    as [(a & b & s1 & s2 & _ & _ & Hb & Hf) | [(txt & e & s1 & Hr & Hb & _)
                                              | (a & s1 & txt & e & s2 & Hp & Hr & Hb & Hf)]];
    rewrite Hb.
  - destruct (follows_running _ _ _ _ Hf) as [Ho _].
    destruct (runBoth_cases (t1 f) (t2 f) (test f) s2)
      as [(a' & b' & s3 & s4 & Hp1 & Hp2 & Hc & Hg) | [(txt & e & s3 & Hr & Hc & Hg)
                                                      | (a' & s3 & txt & e & s4 & Hp & Hr & Hc & Hg)]];
      rewrite Hc.
    + cbn [fst]. split; [reflexivity|].
      exists ((Some a, Some b), None), s2, s3, a', b', s4.
      split; [reflexivity|].
      split; [exact (runAndParse_extracted _ _ _ _ _ Hp1)|].
      split; [exact (runAndParse_extracted _ _ _ _ _ Hp2)|].
      split; [reflexivity|].
      cbn [logged trace]. rewrite stdoutOf_app, (follows_stdout _ _ _ Hg), Ho.
      cbn [stdoutOf]. rewrite append_empty_r, append_assoc. reflexivity.
    + right. split; [reflexivity|]. split.
      * exists 2%nat, "t1", (t1 f), e, s3. split; [|reflexivity].
        eapply fails_third; eassumption.
      * rewrite Hlog. destruct Hg as [Hg | Hg]; rewrite (follows_stdout _ _ _ Hg); exact Ho.
    + right. split; [reflexivity|]. split.
      * exists 3%nat, "t2", (t2 f), e, s4. split; [|reflexivity].
        eapply fails_fourth; eassumption.
      * rewrite Hlog. destruct Hg as [Hg | Hg]; rewrite (follows_stdout _ _ _ Hg); exact Ho.
  - right. split; [reflexivity|]. split.
    + exists 0%nat, "t1", (t1 f), e, s1. split; [|reflexivity].
      eapply fails_first; eassumption.
    + rewrite Hlog. destruct (runTest_follows _ _ _ _ _ _ Hr) as [Hg | Hg];
        apply (follows_running _ _ _ _ Hg).
  - right. split; [reflexivity|]. split.
    + exists 1%nat, "t2", (t2 f), e, s2. split; [|reflexivity].
      eapply fails_second; eassumption.
    + rewrite Hlog. destruct Hf as [Hg | Hg]; apply (follows_running _ _ _ _ Hg).
Qed.

Lemma program_flagged (commandLine : list string -> Parsed) (args : list string)
    (f : Flags) (s0 : Sys) :
  commandLine args = Flagged f -> program commandLine args s0 = main f s0.
Proof. intros H. unfold program, flag_Parse, andThen. rewrite H. reflexivity. Qed.

Lemma program_refused (commandLine : list string -> Parsed) (args : list string)
    (message : string) (status : Z) (s0 : Sys) :
  commandLine args = Refused message status ->
  program commandLine args s0 = Exited status (logged s0 [Write Stderr message]).
Proof. intros H. unfold program, flag_Parse, andThen. rewrite H. reflexivity. Qed.

(** C3 (amended): a run of the program that comes to its end writes
    two lines to standard output and nothing else: the line
    "Running test: <test>" and then the comparison record, the
    tab-separated fields closed by a newline, whose two records are the
    ones extracted in the second comparison from the run of toolchain 1
    and then from the run of toolchain 2.  A run that ends early writes
    nothing when [flag.Parse] refuses the command line or when a flag
    is missing, and the first line only when a run of the process
    runner failed. *)
Theorem main_stdout (commandLine : list string -> Parsed) (args : list string) (s0 : Sys) :
  match program commandLine args s0 with
  | Ok _ s1 =>
      exists f,
        commandLine args = Flagged f /\
        firstMissing f = None /\
        exists r1 s2 sa a b s3,
          runBoth (t1 f) (t2 f) (test f) (logged s0 [Write Stdout (runningLine (test f))])
            = Ok r1 s2 /\
          extracted (t1 f) (test f) s2 a sa /\
          extracted (t2 f) (test f) sa b s3 /\
          s1 = logged s3 [Write Stdout (comparisonLine (test f) a b)] /\
          stdoutOf (trace s1)
            = stdoutOf (trace s0) ++ runningLine (test f) ++ comparisonLine (test f) a b
  | Exited status s1 =>
      (exists message,
          commandLine args = Refused message status /\
          stdoutOf (trace s1) = stdoutOf (trace s0)) \/
      (exists f name,
          commandLine args = Flagged f /\
          firstMissing f = Some name /\
          stdoutOf (trace s1) = stdoutOf (trace s0)) \/
      (exists f,
          commandLine args = Flagged f /\
          firstMissing f = None /\
          (exists k name toolchain err s',
              runnerFails f (logged s0 [Write Stdout (runningLine (test f))])
                k name toolchain err s' /\
              s1 = logged s' [Log (fatalMessage name toolchain (test f) err)]) /\
          stdoutOf (trace s1) = stdoutOf (trace s0) ++ runningLine (test f))
  | Crashed _ => False
  end.
Proof.
  destruct (commandLine args) as [f|message code] eqn:Hc.
  - rewrite (program_flagged commandLine args f s0 Hc).
    pose proof (main_writes f s0) as H.
    destruct (main f s0) as [u s1|status s1|s1]; [| |exact H].
    + exists f. split; [reflexivity|]. exact H.
    + right. destruct H as [(name & Hm & Ho) | (Hm & Hk & Ho)].
      * left. exists f, name. auto.
      * right. exists f. auto.
  - rewrite (program_refused commandLine args message code s0 Hc).
    left. exists message. split; [reflexivity|].
    cbn [logged trace]. rewrite stdoutOf_app. cbn [stdoutOf]. apply append_empty_r.
Qed.

(** C4: with its flags given, the driver runs the comparison of the two
    toolchains twice on the same arguments; whatever the first
    comparison returned is dropped, and the line it prints is the
    record of the two results of the second comparison.  Four
    processes are started, for the toolchains 1, 2, 1, 2. *)
Theorem main_prints_second_comparison (f : Flags) (s0 s2 s3 : Sys)
    (r1 r2 : (option Stats * option Stats) * option string) :
  test f <> EmptyString -> t1 f <> EmptyString -> t2 f <> EmptyString ->
  runBoth (t1 f) (t2 f) (test f) (logged s0 [Write Stdout (runningLine (test f))])
    = Ok r1 s2 ->
  runBoth (t1 f) (t2 f) (test f) s2 = Ok r2 s3 ->
  exists a b,
    r2 = ((Some a, Some b), None) /\
    main f s0 = Ok tt (logged s3 [Write Stdout (comparisonLine (test f) a b)]) /\
    startedPaths (trace s3) = (startedPaths (trace s0) ++ runPaths f)%list.
Proof.
  intros H1 H2 H3 Hb1 Hb2.
  apply nonEmpty_true in H1, H2, H3.
  destruct (runBoth_ok _ _ _ _ _ _ Hb1) as [_ Hf1].
  destruct (runBoth_ok _ _ _ _ _ _ Hb2) as [(a & b & ->) Hf2].
  exists a, b. split; [reflexivity|]. split.
  - rewrite (main_after_flags f s0 H1 H2 H3), Hb1, Hb2. reflexivity.
  - pose proof (follows_trans _ _ _ _ _ Hf1 Hf2) as Hf.
    apply (follows_running _ _ _ _ Hf).
Qed.

(** C5: with its flags given, when a run of the process runner fails,
    for either toolchain, in either comparison, the program ends at
    once with status 1 behind a logged message that names the
    toolchain and the test; standard output holds the first line only,
    no comparison record; and no process is started after the failing
    run, so that when the first run of toolchain 1 fails no run of
    toolchain 2 is started. *)
Theorem main_runner_failure (f : Flags) (s0 s1 : Sys) (k : nat) (name toolchain err : string) :
  test f <> EmptyString -> t1 f <> EmptyString -> t2 f <> EmptyString ->
  runnerFails f (logged s0 [Write Stdout (runningLine (test f))]) k name toolchain err s1 ->
  main f s0 = Exited 1 (logged s1 [Log (fatalMessage name toolchain (test f) err)]) /\
  stdoutOf (trace (logged s1 [Log (fatalMessage name toolchain (test f) err)]))
    = stdoutOf (trace s0) ++ runningLine (test f) /\
  (startedPaths (trace (logged s1 [Log (fatalMessage name toolchain (test f) err)]))
     = (startedPaths (trace s0) ++ firstn k (runPaths f))%list \/
   startedPaths (trace (logged s1 [Log (fatalMessage name toolchain (test f) err)]))
     = (startedPaths (trace s0) ++ firstn (S k) (runPaths f))%list).
Proof.
  intros H1 H2 H3 Hfail. apply nonEmpty_true in H1, H2, H3.
  rewrite (main_after_flags f s0 H1 H2 H3).
  assert (Hlog : forall m, stdoutOf (trace (logged s1 [Log m])) = stdoutOf (trace s1) /\
                           startedPaths (trace (logged s1 [Log m])) = startedPaths (trace s1)).
  { intros m. simpl. rewrite stdoutOf_app, startedPaths_app. simpl.
    rewrite append_empty_r, app_nil_r. auto. }
  destruct (Hlog (fatalMessage name toolchain (test f) err)) as [-> ->].
  assert (Hfin : forall p q, (follows (logged s0 [Write Stdout (runningLine (test f))]) s1 p \/
                              follows (logged s0 [Write Stdout (runningLine (test f))]) s1 q) ->
            stdoutOf (trace s1) = stdoutOf (trace s0) ++ runningLine (test f) /\
            (startedPaths (trace s1) = (startedPaths (trace s0) ++ p)%list \/
             startedPaths (trace s1) = (startedPaths (trace s0) ++ q)%list)).
  { intros p q [Hf | Hf]; destruct (follows_running _ _ _ _ Hf); auto. }
  unfold runPaths, runs. cbn [map snd firstn].
  inversion Hfail as [txt e sa Hr
                     | r sa txt e sb Hp Hr
                     | r sa txt e sb Hb Hr
                     | r sa r' sb txt e sc Hb Hp Hr]; subst; cbn [firstn].
  - rewrite (runBoth_fails_first _ _ _ _ _ _ _ Hr). split; [reflexivity|].
    apply Hfin. exact (runTest_follows _ _ _ _ _ _ Hr).
  - rewrite (runBoth_fails_second _ _ _ _ _ _ _ _ _ Hp Hr). split; [reflexivity|].
    apply Hfin. destruct (runAndParse_ok _ _ _ _ _ Hp) as [_ Hf].
    destruct (runTest_follows _ _ _ _ _ _ Hr) as [Hg | Hg]; [left|right].
    + rewrite <- (app_nil_r [llc (t1 f)]). exact (follows_trans _ _ _ _ _ Hf Hg).
    + exact (follows_trans _ _ _ _ _ Hf Hg).
  - rewrite Hb, (runBoth_fails_first _ _ _ _ _ _ _ Hr). split; [reflexivity|].
    apply Hfin. destruct (runBoth_ok _ _ _ _ _ _ Hb) as [_ Hf].
    destruct (runTest_follows _ _ _ _ _ _ Hr) as [Hg | Hg]; [left|right].
    + rewrite <- (app_nil_r [llc (t1 f); llc (t2 f)]). exact (follows_trans _ _ _ _ _ Hf Hg).
    + exact (follows_trans _ _ _ _ _ Hf Hg).
  - rewrite Hb, (runBoth_fails_second _ _ _ _ _ _ _ _ _ Hp Hr). split; [reflexivity|].
    apply Hfin. destruct (runBoth_ok _ _ _ _ _ _ Hb) as [_ Hf].
    destruct (runAndParse_ok _ _ _ _ _ Hp) as [_ Hf'].
    pose proof (follows_trans _ _ _ _ _ Hf Hf') as Hf2.
    destruct (runTest_follows _ _ _ _ _ _ Hr) as [Hg | Hg]; [left|right].
    + rewrite <- (app_nil_r [llc (t1 f); llc (t2 f); llc (t1 f)]).
      exact (follows_trans _ _ _ _ _ Hf2 Hg).
    + exact (follows_trans _ _ _ _ _ Hf2 Hg).
Qed.

(** C9: with [-t1] and [-test] given and [-t2] left out, the program
    writes to standard error that [-t2] is not specified, prints the
    defaults of the flags and exits with status 1; it makes no call to
    the system, so it starts no process, and it writes nothing to
    standard output. *)
Theorem main_missing_t2 (f : Flags) (s0 : Sys) :
  test f <> EmptyString -> t1 f <> EmptyString -> t2 f = EmptyString ->
  main f s0
    = Exited 1 (logged s0 [Write Stderr ("-t2 is not specified" ++ String NL EmptyString);
                           PrintDefaults]) /\
  calls (trace (logged s0 [Write Stderr ("-t2 is not specified" ++ String NL EmptyString);
                           PrintDefaults])) = calls (trace s0) /\
  stdoutOf (trace (logged s0 [Write Stderr ("-t2 is not specified" ++ String NL EmptyString);
                              PrintDefaults])) = stdoutOf (trace s0).
Proof.
  intros H1 H2 H3. apply nonEmpty_true in H1, H2.
  split; [|split].
  - unfold main. rewrite H1, H2, H3. unfold checkArg at 1 2. cbn [negb]. do 2 io_pure.
    io_exit (checkArg_missing "-t2" s0). reflexivity.
  - simpl. rewrite calls_app. simpl. apply app_nil_r.
  - simpl. rewrite stdoutOf_app. simpl. apply append_empty_r.
Qed.

(* ================================================================== *)
(** * The driver: what else the code shows *)

Ltac split_os :=
  repeat match goal with
         | |- context [os ?c ?w] =>
             let r := fresh "r" in let w1 := fresh "w" in let E := fresh "E" in
             destruct (os c w) as [[r|r] w1] eqn:E; cbn [fst snd]
         end.

(** X6: a run of the process runner that succeeds has made seven
    calls, in this order: it read the test file, asked for the two
    pipes, started [<toolchain>/bin/llc] with the fixed flags and the
    bytes of the file as standard input, read standard output to its
    end, then standard error, and only then waited for the process.
    What it returns is what it read from standard error. *)
Theorem runTest_success (toolchain test txt : string) (s s1 : Sys) :
  runTest toolchain test s = Ok (txt, None) s1 ->
  exists data,
    calls (trace s1) = (calls (trace s) ++ runTestCalls toolchain test data)%list /\
    (exists w1, os (ReadFile test) (world s) = (inl data, w1)) /\
    (exists w5 w6, os (ReadAllErr (llcCommand toolchain data)) w5 = (inl txt, w6)).
Proof.
  unfold runTest, andThen, sys, pure, exec_Command. cbn [Path Args world trace].
  split_os; intros H; inversion H; subst.
  exists r. split; [|eauto].
  cbn [trace]. rewrite !calls_app. cbn [calls]. rewrite <- !app_assoc. reflexivity.
Qed.

Ltac failed_at k data :=
  exists k, data; eexists;
  split; [lia|];
  split; [cbn [trace]; rewrite ?calls_app; cbn [calls]; rewrite <- ?app_assoc; reflexivity|];
  split; [unfold Errorf; simpl; rewrite ?append_empty_r; reflexivity|];
  do 2 eexists; simpl; eassumption.

(** X7: a run of the process runner that fails returns no text, and
    it stopped at the call that failed: the calls it made are the first
    [k] of the seven, the last of them answered with an error, and the
    error it returns is that error, behind the name of the step for the
    last four steps.  In particular the text that a process wrote to
    standard error before it exited with a failure is dropped. *)
Theorem runTest_failure (toolchain test txt e : string) (s s1 : Sys) :
  runTest toolchain test s = Ok (txt, Some e) s1 ->
  txt = EmptyString /\
  exists (k : nat) (data raw : string),
    (1 <= k <= 7)%nat /\
    calls (trace s1)
      = (calls (trace s) ++ firstn k (runTestCalls toolchain test data))%list /\
    e = stageError k raw /\
    exists w0 w1,
      os (nth (k - 1) (runTestCalls toolchain test data) (ReadFile test)) w0 = (inr raw, w1).
Proof.
  unfold runTest, andThen, sys, pure, exec_Command. cbn [Path Args world trace].
  split_os; intros H; inversion H; subst; (split; [reflexivity|]);
    first [ failed_at 1%nat EmptyString
          | failed_at 2%nat r | failed_at 3%nat r | failed_at 4%nat r
          | failed_at 5%nat r | failed_at 6%nat r | failed_at 7%nat r ].
Qed.

(** X8: the process runner and the extractor together neither end the
    program nor panic, and what they return, once the system has
    answered the calls of the runner, is either a record and no error,
    or no record and an error, never both and never neither; the
    record is what the extractor makes of the text that the runner
    returned, and the warnings of the extractor are logged behind the
    calls of the runner. *)
Theorem runAndParse_result (toolchain test : string) (s : Sys) :
  (forall status s1, runAndParse toolchain test s <> Exited status s1) /\
  (forall s1, runAndParse toolchain test s <> Crashed s1) /\
  (forall r e s1,
      runAndParse toolchain test s = Ok (r, e) s1 ->
      (exists st txt s2 logs,
          r = Some st /\ e = None /\
          runTest toolchain test s = Ok (txt, None) s2 /\
          parseTestOutput width txt = Some (st, logs) /\
          s1 = logged s2 (logEvents logs)) \/
      (exists err txt,
          r = None /\ e = Some err /\
          runTest toolchain test s = Ok (txt, Some err) s1)).
Proof.
  destruct (runAndParse_cases toolchain test s)
    as [(txt & s2 & st & logs & Hr & Hp & Hq & _) | (txt & err & s2 & Hr & Hq & _)];
    rewrite Hq; (split; [discriminate|]); (split; [discriminate|]);
    intros r e s1 H; inversion H; subst.
  - left. exists st, txt, s2, logs. auto.
  - right. exists err, txt. auto.
Qed.

(** X9: the flags are checked in the order [-test], [-t1], [-t2], and
    the first that is missing is the one reported: the program writes
    that it is not specified, prints the defaults and exits with status
    1, having made no call to the system and written nothing to
    standard output. *)
Theorem main_first_missing_flag (f : Flags) (s0 : Sys) (name : string) :
  firstMissing f = Some name ->
  main f s0
    = Exited 1 (logged s0 [Write Stderr (name ++ " is not specified" ++ String NL EmptyString);
                           PrintDefaults]) /\
  calls (trace (logged s0 [Write Stderr (name ++ " is not specified" ++ String NL EmptyString);
                           PrintDefaults])) = calls (trace s0) /\
  stdoutOf (trace (logged s0 [Write Stderr (name ++ " is not specified" ++ String NL EmptyString);
                              PrintDefaults])) = stdoutOf (trace s0).
Proof.
  intros H. split; [|split].
  - exact (main_missing_flag_exits f s0 name H).
  - cbn [logged trace]. rewrite calls_app. cbn [calls]. apply app_nil_r.
  - cbn [logged trace]. rewrite stdoutOf_app. cbn [stdoutOf]. apply append_empty_r.
Qed.

(** X10: when the test file cannot be read, the program, with its
    flags given, prints the line that announces the test, tries to
    read the file, logs the error of the read as the failure of
    toolchain 1 and exits with status 1: it starts no process and
    prints no record. *)
Theorem main_unreadable_test (f : Flags) (s0 : Sys) (e : string) (w1 : World) :
  test f <> EmptyString -> t1 f <> EmptyString -> t2 f <> EmptyString ->
  os (ReadFile (test f)) (world s0) = (inr e, w1) ->
  main f s0
    = Exited 1 (mkSys w1 (trace s0 ++ [Write Stdout (runningLine (test f));
                                        Call (ReadFile (test f));
                                        Log (fatalMessage "t1" (t1 f) (test f) e)])%list).
Proof.
  intros H1 H2 H3 Hr. apply nonEmpty_true in H1, H2, H3.
  rewrite (main_after_flags f s0 H1 H2 H3).
  assert (Ht : runTest (t1 f) (test f) (logged s0 [Write Stdout (runningLine (test f))])
               = Ok (EmptyString, Some e)
                    (mkSys w1 ((trace s0 ++ [Write Stdout (runningLine (test f))])
                               ++ [Call (ReadFile (test f))])%list)).
  { unfold runTest, andThen, sys, pure. cbn [logged world trace]. rewrite Hr. reflexivity. }
  rewrite (runBoth_fails_first _ _ _ _ _ _ _ Ht). unfold logged. cbn [world trace].
  rewrite <- !app_assoc. reflexivity.
Qed.


(** X12: a comparison that returns has run toolchain 1 first and
    toolchain 2 after it, from the state in which the first run ended;
    the first record it returns is the one of toolchain 1, the second
    the one of toolchain 2, neither is [nil], and the error is [nil]. *)
Theorem runBoth_result (t1 t2 test : string)
    (r : (option Stats * option Stats) * option string) (s s2 : Sys) :
  runBoth t1 t2 test s = Ok r s2 ->
  exists a b s1,
    r = ((Some a, Some b), None) /\
    runAndParse t1 test s = Ok (Some a, None) s1 /\
    runAndParse t2 test s1 = Ok (Some b, None) s2.
Proof.
  intros H.
  destruct (runBoth_cases t1 t2 test s)
    as [(a & b & s1 & s3 & H1 & H2 & Hb & _) | [(txt & e & s1 & _ & Hb & _)
                                               | (a & s1 & txt & e & s3 & _ & _ & Hb & _)]];
    rewrite H in Hb; inversion Hb; subst.
  exists a, b, s1. auto.
Qed.

(** X13: given two records, [printStats] writes one line to standard
    output, the record of the specification with the fields of the
    first record before those of the second, and returns no error;
    given a [nil] record it panics before it writes anything. *)
Theorem printStats_writes_record (test : string) (a b : Stats) (p : option Stats) (s : Sys) :
  printStats test (Some a, Some b) s
    = Ok None (logged s [Write Stdout (comparisonLine test a b)]) /\
  printStats test (None, p) s = Crashed s /\
  printStats test (Some a, None) s = Crashed s.
Proof.
  split; [|split].
  - unfold printStats, andThen, deref, pure, Printf, emit. cbn [fst snd].
    rewrite Sprintf_record. reflexivity.
  - reflexivity.
  - reflexivity.
Qed.

(** X14: the program comes to its end only if all three flags were
    given and both comparisons returned; it has then started four
    processes, for the toolchains 1, 2, 1, 2, and the last thing it did
    was to write the record of the second comparison. *)
Theorem main_success (f : Flags) (s0 s1 : Sys) :
  main f s0 = Ok tt s1 ->
  firstMissing f = None /\
  exists r1 s2 a b s3,
    runBoth (t1 f) (t2 f) (test f) (logged s0 [Write Stdout (runningLine (test f))])
      = Ok r1 s2 /\
    runBoth (t1 f) (t2 f) (test f) s2 = Ok ((Some a, Some b), None) s3 /\
    s1 = logged s3 [Write Stdout (comparisonLine (test f) a b)] /\
    startedPaths (trace s1) = (startedPaths (trace s0) ++ runPaths f)%list.
Proof.
  destruct (firstMissing f) as [name|] eqn:Hm.
  { rewrite (main_missing_flag_exits f s0 name Hm). discriminate. }
  intros H. split; [reflexivity|].
  unfold firstMissing in Hm.
  destruct (nonEmpty (test f)) eqn:H1; [|discriminate].
  destruct (nonEmpty (t1 f)) eqn:H2; [|discriminate].
  destruct (nonEmpty (t2 f)) eqn:H3; [|discriminate].
  rewrite (main_after_flags f s0 H1 H2 H3) in H.
  destruct (runBoth (t1 f) (t2 f) (test f) (logged s0 [Write Stdout (runningLine (test f))]))
    as [r1 s2| |] eqn:Hb1; try discriminate.
  destruct (runBoth (t1 f) (t2 f) (test f) s2) as [r2 s3| |] eqn:Hb2; try discriminate.
  destruct (runBoth_ok _ _ _ _ _ _ Hb1) as [_ Hf1].
  destruct (runBoth_ok _ _ _ _ _ _ Hb2) as [(a & b & ->) Hf2].
  cbn [fst] in H. inversion H; subst s1.
  exists r1, s2, a, b, s3. repeat split; auto.
  pose proof (follows_trans _ _ _ _ _ Hf1 Hf2) as Hf.
  destruct (follows_running _ _ _ _ Hf) as [_ Hp].
  cbn [logged trace]. rewrite startedPaths_app, Hp. cbn [startedPaths].
  rewrite app_nil_r. reflexivity.
Qed.

End DriverFacts.

(* ================================================================== *)
(** * The driver on scripted runs *)

(** C3 as it is written fails: a run in which everything succeeds
    writes the line "Running test: tests/x.bc" in front of the record,
    so that standard output is not the record alone. *)
Lemma main_prints_two_lines :
  exists s1 : @Sys Script.env,
    main Script.flags (Script.start Script.fourRuns) = Ok tt s1 /\
    stdoutOf (trace s1)
    = go ("Running test: tests/x.bc\n" ++
          "x.bc\t1234\t56\t6067249417993532p-57\t6485183463413514p-57" ++
          "\t1234\t56\t6067249417993532p-57\t6485183463413514p-57\n") /\
    forall a b : Stats, stdoutOf (trace s1) <> comparisonLine (E := Script.env) "tests/x.bc" a b.
Proof.
  eexists. split; [vm_compute; reflexivity|]. split; [vm_compute; reflexivity|].
  intros a b H. vm_compute in H. discriminate H.
Qed.

Lemma main_prints_second_comparison_witness :
  exists s3 : @Sys Script.env,
    main Script.flags (Script.start Script.fourRuns)
    = Ok tt (logged s3 [Write Stdout (comparisonLine (E := Script.env) "tests/x.bc"
                                        Script.reported Script.reported)]).
Proof.
  edestruct (@main_prints_second_comparison Script.env Script.flags
               (Script.start Script.fourRuns)) as (a & b & Hr & Hm & _).
  - discriminate.
  - discriminate.
  - discriminate.
  - vm_compute. reflexivity.
  - vm_compute. reflexivity.
  - inversion Hr; subst a b. eexists. exact Hm.
Defined.

Lemma main_runner_failure_witness :
  exists s1 : @Sys Script.env,
    main Script.flags (Script.start Script.secondFails)
    = Exited 1 (logged s1 [Log "runTest(t2=/opt/b, test=tests/x.bc): cmd.Start: no such file"])
    /\ stdoutOf (trace (logged s1
         [Log "runTest(t2=/opt/b, test=tests/x.bc): cmd.Start: no such file"]))
       = go "Running test: tests/x.bc\n".
Proof.
  edestruct (@main_runner_failure Script.env Script.flags (Script.start Script.secondFails))
    as (Hm & Ho & _).
  - discriminate.
  - discriminate.
  - discriminate.
  - eapply fails_second; vm_compute; reflexivity.
  - eexists. split; [exact Hm|exact Ho].
Defined.

Lemma main_missing_t2_witness :
  main (E := Script.env) (mkFlags "/opt/a" EmptyString "tests/x.bc") (Script.start [])
  = Exited 1 (Script.start' [Write Stderr (go "-t2 is not specified\n"); PrintDefaults]).
Proof.
  apply (@main_missing_t2 Script.env (mkFlags "/opt/a" EmptyString "tests/x.bc") (Script.start [])).
  - discriminate.
  - discriminate.
  - reflexivity.
Defined.

(** ** The extra properties of the driver on scripted runs *)

Lemma runTest_success_witness :
  exists (s1 : @Sys Script.env) (data : string),
    runTest "/opt/a" "tests/x.bc" (Script.start (Script.goodRun Script.report))
    = Ok (Script.report, None) s1 /\
    calls (trace s1) = runTestCalls (E := Script.env) "/opt/a" "tests/x.bc" data.
Proof.
  destruct (runTest (E := Script.env) "/opt/a" "tests/x.bc"
              (Script.start (Script.goodRun Script.report))) as [[txt [e|]] s1| |] eqn:H;
    pose proof H as H'; vm_compute in H'; try discriminate H'.
  inversion H'; subst txt.
  destruct (runTest_success _ _ _ _ _ H) as (data & Hc & _).
  exists s1, data. split; [exact H|exact Hc].
Defined.

Lemma runTest_failure_witness :
  exists (s1 : @Sys Script.env) (e : string),
    runTest "/opt/b" "tests/x.bc"
      (Script.start [inl "bitcode"; inl EmptyString; inl EmptyString; inr "no such file"])
    = Ok (EmptyString, Some e) s1 /\
    exists (k : nat) (data raw : string),
      (1 <= k <= 7)%nat /\
      calls (trace s1) = firstn k (runTestCalls (E := Script.env) "/opt/b" "tests/x.bc" data) /\
      e = stageError k raw.
Proof.
  destruct (runTest (E := Script.env) "/opt/b" "tests/x.bc"
              (Script.start [inl "bitcode"; inl EmptyString; inl EmptyString;
                             inr "no such file"])) as [[txt [e|]] s1| |] eqn:H;
    pose proof H as H'; vm_compute in H'; try discriminate H'.
  destruct (runTest_failure _ _ _ _ _ _ H) as (-> & k & data & raw & Hk & Hc & He & _).
  exists s1, e. split; [reflexivity|]. exists k, data, raw. auto.
Defined.

Lemma main_first_missing_flag_witness :
  main (E := Script.env) (mkFlags EmptyString EmptyString EmptyString) (Script.start [])
  = Exited 1 (Script.start' [Write Stderr (go "-test is not specified\n"); PrintDefaults]).
Proof.
  apply (@main_first_missing_flag Script.env (mkFlags EmptyString EmptyString EmptyString)
           (Script.start []) "-test").
  reflexivity.
Defined.

Lemma main_unreadable_test_witness :
  main Script.flags (Script.start [inr "open tests/x.bc: no such file or directory"])
  = Exited 1 (Script.start'
      [Write Stdout (go "Running test: tests/x.bc\n");
       Call (ReadFile "tests/x.bc");
       Log ("runTest(t1=/opt/a, test=tests/x.bc): " ++
            "open tests/x.bc: no such file or directory")]).
Proof.
  apply (@main_unreadable_test Script.env Script.flags
           (Script.start [inr "open tests/x.bc: no such file or directory"])).
  - discriminate.
  - discriminate.
  - discriminate.
  - reflexivity.
Defined.


Lemma runAndParse_result_witness :
  exists (s1 : @Sys Script.env),
    runAndParse "/opt/a" "tests/x.bc" (Script.start (Script.goodRun Script.report))
    = Ok (Some Script.reported, None) s1 /\
    exists txt s2 logs,
      runTest "/opt/a" "tests/x.bc" (Script.start (Script.goodRun Script.report))
        = Ok (txt, None) s2 /\
      parseTestOutput Int32 txt = Some (Script.reported, logs).
Proof.
  destruct (runAndParse (E := Script.env) "/opt/a" "tests/x.bc"
              (Script.start (Script.goodRun Script.report))) as [[r e] s1| |] eqn:H;
    pose proof H as H'; vm_compute in H'; try discriminate H'.
  destruct (@runAndParse_result Script.env "/opt/a" "tests/x.bc"
              (Script.start (Script.goodRun Script.report))) as (_ & _ & Hres).
  destruct (Hres r e s1 H)
    as [(st & txt & s2 & logs & -> & -> & Hr & Hp & _) | (err & txt & -> & -> & _)];
    [|discriminate H'].
  assert (st = Script.reported) as -> by (inversion H'; reflexivity).
  exists s1. split; [reflexivity|]. exists txt, s2, logs. auto.
Defined.

Lemma runBoth_result_witness :
  exists (s2 : @Sys Script.env),
    runBoth "/opt/a" "/opt/b" "tests/x.bc"
      (Script.start (Script.goodRun Script.warmup ++ Script.goodRun Script.report)%list)
    = Ok ((Some (mkStats 1 2 zero64 zero64), Some Script.reported), None) s2.
Proof.
  destruct (runBoth (E := Script.env) "/opt/a" "/opt/b" "tests/x.bc"
              (Script.start (Script.goodRun Script.warmup ++ Script.goodRun Script.report)%list))
    as [r s2| |] eqn:H; pose proof H as H'; vm_compute in H'; try discriminate H'.
  destruct (runBoth_result _ _ _ _ _ _ H) as (a & b & s1 & -> & _ & _).
  inversion H'; subst. eexists. exact H.
Defined.

Lemma main_success_witness :
  exists (s1 : @Sys Script.env),
    main Script.flags (Script.start Script.fourRuns) = Ok tt s1 /\
    startedPaths (trace s1) = ["/opt/a/bin/llc"; "/opt/b/bin/llc";
                               "/opt/a/bin/llc"; "/opt/b/bin/llc"].
Proof.
  destruct (main (E := Script.env) Script.flags (Script.start Script.fourRuns))
    as [[] s1|status s1|s1] eqn:H;
    pose proof H as H'; vm_compute in H'; try discriminate H'.
  destruct (main_success _ _ _ H) as (_ & r1 & s2 & a & b & s3 & _ & _ & _ & Hp).
  exists s1. split; [reflexivity|exact Hp].
Defined.
